(** * Common::Utility::NT::Library — a read/patch view over a loaded PE image

    Shallow embedding of [src/common/utility/nt.cpp].

    The process address space is a finite map from addresses to bytes; a read
    of an unmapped address is a [Fault] (the access violation the C++ code
    would raise).  Pointers are 64-bit: every pointer computation is taken
    modulo 2^64.  The three sentinel-terminated loops of the source
    ([GetTlsCallbacks], and the two nested loops of [GetIATEntry]) have no
    bound in the code, so their embeddings take a step budget and report
    [OutOfFuel] when it is exhausted. *)

From Stdlib Require Import ZArith String Ascii Strings.Byte.
From stdpp Require Import base option list gmap.

Local Open Scope Z_scope.

(** ** Results of code that may touch unmapped memory *)

Inductive result (A : Type) : Type :=
| Ret (a : A)
| Fault
| OutOfFuel.
Arguments Ret {A} a.
Arguments Fault {A}.
Arguments OutOfFuel {A}.

Definition bind {A B : Type} (r : result A) (k : A → result B) : result B :=
  match r with
  | Ret a => k a
  | Fault => Fault
  | OutOfFuel => OutOfFuel
  end.

Declare Scope result_scope.
Delimit Scope result_scope with result.
Notation "'let*' x ':=' r 'in' k" := (bind r (λ x, k))
  (at level 10, x name, r at level 100, k at level 200) : result_scope.
Local Open Scope result_scope.

(** ** Machine integers *)

Definition wrap (bits : Z) (v : Z) : Z := v mod 2 ^ bits.
Definition wrap32 : Z → Z := wrap 32.
Definition wrap64 : Z → Z := wrap 64.

(** [pointer + offset] on a 64-bit target. *)
Definition ptr_add (p k : Z) : Z := wrap64 (p + k).

(** Reading a [LONG] (signed 32-bit) out of its unsigned bit pattern. *)
Definition sext32 (v : Z) : Z := if v <? 2 ^ 31 then v else v - 2 ^ 32.

(** ** Platform layout (winnt.h, PE32+)

    The structure and constant declarations come from the Windows SDK, not
    from this repository; the offsets below are those of the 64-bit PE/COFF
    image format. *)
Module Layout.
Definition IMAGE_DOS_SIGNATURE : Z := 0x5A4D.
Definition e_magic : Z := 0.
Definition e_lfanew : Z := 0x3C.
(* IMAGE_NT_HEADERS64 *)
Definition FileHeader_NumberOfSections : Z := 6.
Definition FileHeader_SizeOfOptionalHeader : Z := 20.
Definition OptionalHeader : Z := 24.
(* IMAGE_OPTIONAL_HEADER64 *)
Definition AddressOfEntryPoint : Z := 16.
Definition SizeOfImage : Z := 56.
Definition DataDirectory : Z := 112.
Definition sizeof_IMAGE_DATA_DIRECTORY : Z := 8.
Definition IMAGE_DIRECTORY_ENTRY_IMPORT : Z := 1.
Definition IMAGE_DIRECTORY_ENTRY_TLS : Z := 9.
Definition sizeof_IMAGE_SECTION_HEADER : Z := 40.
(* IMAGE_TLS_DIRECTORY64 *)
Definition AddressOfCallBacks : Z := 24.
(* IMAGE_IMPORT_DESCRIPTOR *)
Definition OriginalFirstThunk : Z := 0.
Definition TimeDateStamp : Z := 4.
Definition ForwarderChain : Z := 8.
Definition Name : Z := 12.
Definition FirstThunk : Z := 16.
Definition sizeof_IMAGE_IMPORT_DESCRIPTOR : Z := 20.
Definition sizeof_IMAGE_THUNK_DATA : Z := 8.
Definition sizeof_uintptr_t : Z := 8.
Definition PAGE_EXECUTE_READWRITE : Z := 0x40.
End Layout.

(** ** Memory *)

Definition byte_val (b : byte) : Z := Z.of_N (Byte.to_N b).

Definition load8 (m : gmap Z byte) (a : Z) : result Z :=
  match m !! a with
  | Some b => Ret (byte_val b)
  | None => Fault
  end.

(** Little-endian read of [n] consecutive bytes. *)
Fixpoint load_le (n : nat) (m : gmap Z byte) (a : Z) : result Z :=
  match n with
  | O => Ret 0
  | S k =>
      let* b := load8 m a in
      let* hi := load_le k m (a + 1) in
      Ret (b + 256 * hi)
  end.

Definition load16 := load_le 2.
Definition load32 := load_le 4.
Definition load64 := load_le 8.

(** ** The process the library object lives in

    Everything [nt.cpp] obtains from the operating system: the address
    space, the loader's module table, the export resolver (by name and by
    ordinal: [GetProcAddress] takes either in its second argument), the
    module's file name and the file system. *)
Record Process := {
  mem : gmap Z byte;
  GetModuleHandleA : string → Z;
  GetProcAddress : Z → string → Z;
  GetProcAddressOrdinal : Z → Z → Z;
  GetModuleFileNameA : Z → string;
  open_file : string → option (list byte);
}.

(** Calls that change operating-system state, in the order they are made. *)
Inductive os_call : Type :=
| VirtualProtect (lpAddress dwSize flNewProtect : Z)
| FreeLibrary (hLibModule : Z).

(** ** The Library object *)

Record Library := { m_Module : Z }.

Definition GetHandle (this : Library) : Z := m_Module this.

(* nt.cpp:80 *)
Definition GetPtr (this : Library) : Z := m_Module this.

(* nt.cpp:51 *)
Definition GetDOSHeader (this : Library) : Z := GetPtr this.

(* nt.cpp:109 — [&&] short-circuits: a null handle is never dereferenced. *)
Definition IsValid (P : Process) (this : Library) : result bool :=
  if m_Module this =? 0 then Ret false
  else
    let* magic := load16 (mem P) (ptr_add (GetDOSHeader this) Layout.e_magic) in
    Ret (magic =? Layout.IMAGE_DOS_SIGNATURE).

(* nt.cpp:44 *)
Definition GetNTHeaders (P : Process) (this : Library) : result Z :=
  let* v := IsValid P this in
  if negb v then Ret 0
  else
    let* lfanew := load32 (mem P) (ptr_add (GetDOSHeader this) Layout.e_lfanew) in
    Ret (ptr_add (GetPtr this) (sext32 lfanew)).

(* nt.cpp:55 *)
Definition GetOptionalHeader (P : Process) (this : Library) : result Z :=
  let* v := IsValid P this in
  if negb v then Ret 0
  else
    let* nt := GetNTHeaders P this in
    Ret (ptr_add nt Layout.OptionalHeader).

(** The [for] loop of [GetSectionHeaders]: [count] iterations remain,
    [section] is the running pointer.  A null [section] is skipped (the
    source only emits a debug string for it). *)
Fixpoint section_loop (count : nat) (section : Z) : list Z :=
  match count with
  | O => []
  | S k =>
      (if section =? 0 then [] else [section])
        ++ section_loop k (ptr_add section Layout.sizeof_IMAGE_SECTION_HEADER)
  end.

(* nt.cpp:62 — no validity guard: [ntHeaders] is dereferenced as returned.
   IMAGE_FIRST_SECTION(nt) is
   (ULONG_PTR)nt + offsetof(OptionalHeader) + nt->FileHeader.SizeOfOptionalHeader.
   The loop condition re-reads NumberOfSections at every test; the loop
   writes no memory, so the count is read once here. *)
Definition GetSectionHeaders (P : Process) (this : Library) : result (list Z) :=
  let* ntHeaders := GetNTHeaders P this in
  let* optsize := load16 (mem P) (ptr_add ntHeaders Layout.FileHeader_SizeOfOptionalHeader) in
  let section := ptr_add (ptr_add ntHeaders Layout.OptionalHeader) optsize in
  let* n := load16 (mem P) (ptr_add ntHeaders Layout.FileHeader_NumberOfSections) in
  Ret (section_loop (Z.to_nat n) section).

(* nt.cpp:84 — the previous protection is written to a local and dropped. *)
Definition Unprotect (P : Process) (this : Library) (calls : list os_call)
  : result (list os_call) :=
  let* v := IsValid P this in
  if negb v then Ret calls
  else
    let* header := GetOptionalHeader P this in
    let* size := load32 (mem P) (ptr_add header Layout.SizeOfImage) in
    Ret (calls ++ [VirtualProtect (GetPtr this) size Layout.PAGE_EXECUTE_READWRITE]).

(* nt.cpp:93 *)
Definition GetRelativeEntryPoint (P : Process) (this : Library) : result Z :=
  let* v := IsValid P this in
  if negb v then Ret 0
  else
    let* nt := GetNTHeaders P this in
    load32 (mem P) (ptr_add (ptr_add nt Layout.OptionalHeader) Layout.AddressOfEntryPoint).

(* nt.cpp:101 *)
Definition GetEntryPoint (P : Process) (this : Library) : result Z :=
  let* v := IsValid P this in
  if negb v then Ret 0
  else
    let* rva := GetRelativeEntryPoint P this in
    Ret (ptr_add (GetPtr this) rva).

(* nt.cpp:125 *)
Definition GetPath (P : Process) (this : Library) : result string :=
  let* v := IsValid P this in
  if negb v then Ret ""%string
  else Ret (GetModuleFileNameA P (m_Module this)).

(* nt.cpp:145 — the object is mutated: the new object is returned next to
   the extended call log. *)
Definition Free (P : Process) (this : Library) (calls : list os_call)
  : result (Library * list os_call) :=
  let* v := IsValid P this in
  if v then Ret ({| m_Module := 0 |}, calls ++ [FreeLibrary (m_Module this)])
  else Ret (this, calls).

(** ** TLS callbacks *)

(** The loop over the callback array, run while the slot at [current] is
    not null; [callbacks] is the vector built so far.  The step is integer arithmetic on [uintptr_t]. *)
Fixpoint tls_loop (fuel : nat) (m : gmap Z byte) (current : Z) (callbacks : list Z)
  : result (list Z) :=
  match fuel with
  | O => OutOfFuel
  | S fuel' =>
      let* cb := load64 m current in
      if cb =? 0 then Ret callbacks
      else tls_loop fuel' m (wrap64 (current + Layout.sizeof_uintptr_t)) (callbacks ++ [cb])
  end.

Definition data_directory_va (header index : Z) : Z :=
  ptr_add header (Layout.DataDirectory + index * Layout.sizeof_IMAGE_DATA_DIRECTORY).

(* nt.cpp:156 — no validity guard: the optional header pointer is
   dereferenced as returned. *)
Definition GetTlsCallbacks (fuel : nat) (P : Process) (this : Library)
  : result (list Z) :=
  let* header := GetOptionalHeader P this in
  let* virtualAddr :=
    load32 (mem P) (data_directory_va header Layout.IMAGE_DIRECTORY_ENTRY_TLS) in
  if virtualAddr =? 0 then Ret []
  else
    let tlsDir := ptr_add (GetPtr this) virtualAddr in
    let* current := load64 (mem P) (ptr_add tlsDir Layout.AddressOfCallBacks) in
    tls_loop fuel (mem P) current [].

(** ** Import address table *)

Definition tolower (c : Z) : Z :=
  if (65 <=? c) && (c <=? 90) then c + 32 else c.

Definition char_code (s : string) : Z :=
  match s with
  | EmptyString => 0
  | String ch _ => Z.of_N (N_of_ascii ch)
  end.

(** [_stricmp(p, s.data())] for a C string at address [a] and the buffer of
    a [std::string]: the buffer ends in a NUL, and a NUL inside it ends the
    comparison as well.  The result is the difference of the first pair of
    lower-cased characters that differ, 0 when there is none. *)
Fixpoint stricmp (m : gmap Z byte) (a : Z) (s : string) : result Z :=
  let* c1 := load8 m a in
  let d := tolower c1 - tolower (char_code s) in
  if negb (d =? 0) then Ret d
  else if c1 =? 0 then Ret 0
  else
    match s with
    | EmptyString => Ret 0
    | String _ s' => stricmp m (ptr_add a 1) s'
    end.

(* nt.cpp:24 — [Library(const std::string& name)] *)
Definition Library_named (P : Process) (name : string) : Library :=
  {| m_Module := GetModuleHandleA P name |}.

(** Modelled from the spec: [GetProc] is a member template declared in
    nt.hpp, which is not among the sources.  Section 4.5 (step 1) and
    section 6 give it as the export resolver applied to the module,
    [resolve_by_name(Module, symbol_name)], null when resolution fails. *)
Definition GetProc (P : Process) (this : Library) (procName : string) : Z :=
  GetProcAddress P (m_Module this) procName.

Definition ordinal_mask : Z := 0xFFFFFFF.
Definition ordinal_max : Z := 0xFFFF.

(** The inner [while (originalThunkData->u1.AddressOfData)] loop
    (nt.cpp:206-222).  [Some slot]: the function returns [slot];
    [None]: the loop ran to its end sentinel. *)
Fixpoint thunk_loop (fuel : nat) (P : Process) (otherModule : Library)
    (targetFunction : Z) (originalThunkData thunkData : Z) : result (option Z) :=
  match fuel with
  | O => OutOfFuel
  | S fuel' =>
      let* AddressOfData := load64 (mem P) originalThunkData in
      if AddressOfData =? 0 then Ret None
      else
        let* Function := load64 (mem P) thunkData in
        if Function =? targetFunction then Ret (Some thunkData)
        else
          let next :=
            thunk_loop fuel' P otherModule targetFunction
              (ptr_add originalThunkData Layout.sizeof_IMAGE_THUNK_DATA)
              (ptr_add thunkData Layout.sizeof_IMAGE_THUNK_DATA) in
          let ordinalNumber := Z.land AddressOfData ordinal_mask in
          if ordinalNumber <=? ordinal_max then
            let proc := GetProcAddressOrdinal P (m_Module otherModule) ordinalNumber in
            if proc =? targetFunction then Ret (Some thunkData) else next
          else next
  end.

(** The outer [while (importDescriptor->Name)] loop (nt.cpp:201-228). *)
Fixpoint descriptor_loop (fuel : nat) (P : Process) (this otherModule : Library)
    (moduleName : string) (targetFunction : Z) (importDescriptor : Z) : result Z :=
  match fuel with
  | O => OutOfFuel
  | S fuel' =>
      let* Name := load32 (mem P) (ptr_add importDescriptor Layout.Name) in
      if Name =? 0 then Ret 0
      else
        let next := ptr_add importDescriptor Layout.sizeof_IMAGE_IMPORT_DESCRIPTOR in
        let* cmp := stricmp (mem P) (ptr_add (GetPtr this) Name) moduleName in
        if cmp =? 0 then
          let* oft := load32 (mem P) (ptr_add importDescriptor Layout.OriginalFirstThunk) in
          let* ft := load32 (mem P) (ptr_add importDescriptor Layout.FirstThunk) in
          let* found :=
            thunk_loop fuel' P otherModule targetFunction
              (ptr_add oft (GetPtr this)) (ptr_add ft (GetPtr this)) in
          match found with
          | Some slot => Ret slot
          | None =>
              descriptor_loop fuel' P this otherModule moduleName targetFunction next
          end
        else
          descriptor_loop fuel' P this otherModule moduleName targetFunction next
  end.

(* nt.cpp:178 *)
Definition GetIATEntry (fuel : nat) (P : Process) (this : Library)
    (moduleName procName : string) : result Z :=
  let* v := IsValid P this in
  if negb v then Ret 0
  else
    let otherModule := Library_named P moduleName in
    let* ov := IsValid P otherModule in
    if negb ov then Ret 0
    else
      let targetFunction := GetProc P otherModule procName in
      if targetFunction =? 0 then Ret 0
      else
        let* header := GetOptionalHeader P this in
        if header =? 0 then Ret 0
        else
          let* va :=
            load32 (mem P) (data_directory_va header Layout.IMAGE_DIRECTORY_ENTRY_IMPORT) in
          descriptor_loop fuel P this otherModule moduleName targetFunction
            (ptr_add (GetPtr this) va).

(** ** Checksum *)

(** [char] is signed on the target; the file yields bytes as [char]. *)
Definition char_of_byte (b : byte) : Z :=
  let n := byte_val b in if n <? 128 then n else n - 256.

(** [static_cast<uint8_t>(c)] *)
Definition to_uint8 (c : Z) : Z := wrap 8 c.

(** One turn of [while (file.get(byte)) checksum += static_cast<uint8_t>(byte);]
    on a [uint32_t] accumulator. *)
Definition checksum_step (checksum : Z) (b : byte) : Z :=
  wrap32 (checksum + to_uint8 (char_of_byte b)).

(* nt.cpp:233 *)
Definition GetChecksum (P : Process) (this : Library) : result Z :=
  let* path := GetPath P this in
  match open_file P path with
  | None => Ret 0
  | Some content => Ret (fold_left checksum_step content 0)
  end.

(** ** What the loops expect to find in memory

    The tables of a loaded image, stated as predicates on the address
    space, and the searches the loops are meant to perform on them. *)

(** A null-terminated array holding the non-null pointers [ptrs] at [a]. *)
Fixpoint callback_array (m : gmap Z byte) (a : Z) (ptrs : list Z) : Prop :=
  match ptrs with
  | [] => load64 m a = Ret 0
  | p :: rest =>
      p ≠ 0 ∧ load64 m a = Ret p
      ∧ callback_array m (wrap64 (a + Layout.sizeof_uintptr_t)) rest
  end.

(** One entry of the name table next to the entry of the address table at
    the same index. *)
Record thunk_pair := { AddressOfData : Z; Function : Z }.

(** The name table at [o] and the address table at [t] hold [pairs],
    the name table ending in a zero entry. *)
Fixpoint thunks_at (m : gmap Z byte) (o t : Z) (pairs : list thunk_pair) : Prop :=
  match pairs with
  | [] => load64 m o = Ret 0
  | p :: rest =>
      AddressOfData p ≠ 0
      ∧ load64 m o = Ret (AddressOfData p)
      ∧ load64 m t = Ret (Function p)
      ∧ thunks_at m (ptr_add o Layout.sizeof_IMAGE_THUNK_DATA)
          (ptr_add t Layout.sizeof_IMAGE_THUNK_DATA) rest
  end.

(** One import descriptor as the lookup sees it: [iv_cmp] is what
    [_stricmp] answers for its module name against the requested one. *)
Record import_view := {
  iv_Name : Z;
  iv_cmp : Z;
  iv_OriginalFirstThunk : Z;
  iv_FirstThunk : Z;
  iv_thunks : list thunk_pair;
}.

Definition name_matches (d : import_view) : bool := iv_cmp d =? 0.

(** The descriptor array at [desc] holds [ds] and then a descriptor whose
    [Name] is zero.  The thunk tables of a descriptor are only required to
    be in place when its name matches: the lookup reads no others. *)
Fixpoint imports_at (P : Process) (this : Library) (moduleName : string)
    (desc : Z) (ds : list import_view) : Prop :=
  match ds with
  | [] => load32 (mem P) (ptr_add desc Layout.Name) = Ret 0
  | d :: rest =>
      iv_Name d ≠ 0
      ∧ load32 (mem P) (ptr_add desc Layout.Name) = Ret (iv_Name d)
      ∧ stricmp (mem P) (ptr_add (GetPtr this) (iv_Name d)) moduleName = Ret (iv_cmp d)
      ∧ (iv_cmp d = 0 →
           load32 (mem P) (ptr_add desc Layout.OriginalFirstThunk)
             = Ret (iv_OriginalFirstThunk d)
           ∧ load32 (mem P) (ptr_add desc Layout.FirstThunk) = Ret (iv_FirstThunk d)
           ∧ thunks_at (mem P)
               (ptr_add (iv_OriginalFirstThunk d) (GetPtr this))
               (ptr_add (iv_FirstThunk d) (GetPtr this)) (iv_thunks d))
      ∧ imports_at P this moduleName
          (ptr_add desc Layout.sizeof_IMAGE_IMPORT_DESCRIPTOR) rest
  end.

(** The character codes of a [std::string]. *)
Fixpoint string_codes (s : string) : list Z :=
  match s with
  | EmptyString => []
  | String ch s' => Z.of_N (N_of_ascii ch) :: string_codes s'
  end.

(** A C string with the non-NUL characters [cs] at [a]. *)
Fixpoint cstring_at (m : gmap Z byte) (a : Z) (cs : list Z) : Prop :=
  match cs with
  | [] => load8 m a = Ret 0
  | c :: rest => c ≠ 0 ∧ load8 m a = Ret c ∧ cstring_at m (ptr_add a 1) rest
  end.

(** A slot is bound to the target by address, or through its ordinal. *)
Definition by_address (targetFunction : Z) (p : thunk_pair) : bool :=
  Function p =? targetFunction.

Definition by_ordinal (P : Process) (otherModule : Library) (targetFunction : Z)
    (p : thunk_pair) : bool :=
  let n := Z.land (AddressOfData p) ordinal_mask in
  (n <=? ordinal_max)
  && (GetProcAddressOrdinal P (m_Module otherModule) n =? targetFunction).

Definition slot_matches (P : Process) (otherModule : Library) (targetFunction : Z)
    (p : thunk_pair) : bool :=
  by_address targetFunction p || by_ordinal P otherModule targetFunction p.

(** Address of the first matching slot of an address table starting at [slot]. *)
Fixpoint first_match (P : Process) (otherModule : Library) (targetFunction : Z)
    (slot : Z) (pairs : list thunk_pair) : option Z :=
  match pairs with
  | [] => None
  | p :: rest =>
      if slot_matches P otherModule targetFunction p then Some slot
      else first_match P otherModule targetFunction
             (ptr_add slot Layout.sizeof_IMAGE_THUNK_DATA) rest
  end.

Definition first_match_in (P : Process) (this otherModule : Library)
    (targetFunction : Z) (d : import_view) : option Z :=
  first_match P otherModule targetFunction
    (ptr_add (iv_FirstThunk d) (GetPtr this)) (iv_thunks d).

(** First matching slot over all descriptors whose name matches, in table
    order. *)
Fixpoint lookup_slot (P : Process) (this otherModule : Library) (targetFunction : Z)
    (ds : list import_view) : option Z :=
  match ds with
  | [] => None
  | d :: rest =>
      if name_matches d then
        match first_match_in P this otherModule targetFunction d with
        | Some slot => Some slot
        | None => lookup_slot P this otherModule targetFunction rest
        end
      else lookup_slot P this otherModule targetFunction rest
  end.

(** [slot] is the address of an entry of the address table of a descriptor
    of [ds] whose name matches, and that entry is bound to the target. *)
Definition bound_slot (P : Process) (this otherModule : Library) (targetFunction : Z)
    (ds : list import_view) (slot : Z) : Prop :=
  ∃ (d : import_view) (i : nat) (p : thunk_pair),
    d ∈ ds ∧ name_matches d = true
    ∧ iv_thunks d !! i = Some p
    ∧ slot_matches P otherModule targetFunction p = true
    ∧ slot = ptr_add (ptr_add (iv_FirstThunk d) (GetPtr this))
               (Layout.sizeof_IMAGE_THUNK_DATA * Z.of_nat i).

(** A step budget that lets the lookup walk the whole table. *)
Fixpoint fuel_needed (ds : list import_view) : nat :=
  match ds with
  | [] => 1
  | d :: rest => S (Nat.max (S (length (iv_thunks d))) (fuel_needed rest))
  end.

(** A module is invalid when its handle is null, or when the two bytes at
    its base can be read and are not the DOS signature. *)
Definition invalid_module (P : Process) (this : Library) : Prop :=
  m_Module this = 0
  ∨ ∃ magic, load16 (mem P) (ptr_add (GetDOSHeader this) Layout.e_magic) = Ret magic
             ∧ magic ≠ Layout.IMAGE_DOS_SIGNATURE.

(** Nothing is mapped in the first 64 KiB of the address space, as on the
    target platform (null-pointer dereferences trap). *)
Definition null_page_unmapped (m : gmap Z byte) : Prop :=
  map_Forall (λ (a : Z) (_ : byte), 0x10000 ≤ a) m.

(** All five fields of the descriptor at [desc] are zero. *)
Definition all_zero (P : Process) (desc : Z) : Prop :=
  load32 (mem P) (ptr_add desc Layout.OriginalFirstThunk) = Ret 0
  ∧ load32 (mem P) (ptr_add desc Layout.TimeDateStamp) = Ret 0
  ∧ load32 (mem P) (ptr_add desc Layout.ForwarderChain) = Ret 0
  ∧ load32 (mem P) (ptr_add desc Layout.Name) = Ret 0
  ∧ load32 (mem P) (ptr_add desc Layout.FirstThunk) = Ret 0.

(** The outer loop, entered at [desc], takes the descriptor there for the
    end of the table: it returns "not found" at once, whatever it was
    asked to look for. *)
Definition ends_scan (P : Process) (desc : Z) : Prop :=
  ∀ fuel this otherModule moduleName targetFunction,
    descriptor_loop (S fuel) P this otherModule moduleName targetFunction desc = Ret 0.

(** Sum of the bytes of a file, each as an unsigned 8-bit value. *)
Definition byte_sum (content : list byte) : Z :=
  foldr (λ b acc, byte_val b + acc) 0 content.

(** ** A synthetic process

    A small image laid out by hand, used to run the definitions above: the
    module at [B] imports from USER32.dll through one descriptor and from
    KERNEL32.dll through two, and has two TLS callbacks. *)
Module Fixture.

Definition byte_of_Z (v : Z) : byte := default x00 (Byte.of_N (Z.to_N v)).

Fixpoint le_bytes (n : nat) (v : Z) : list byte :=
  match n with
  | O => []
  | S k => byte_of_Z (v mod 256) :: le_bytes k (v / 256)
  end.

Fixpoint store_bytes (a : Z) (bs : list byte) (m : gmap Z byte) : gmap Z byte :=
  match bs with
  | [] => m
  | b :: bs' => <[a := b]> (store_bytes (a + 1) bs' m)
  end.

Definition poke (n : nat) (a v : Z) (m : gmap Z byte) : gmap Z byte :=
  store_bytes a (le_bytes n v) m.

Fixpoint cstring (s : string) : list byte :=
  match s with
  | EmptyString => [x00]
  | String ch s' => byte_of_Z (Z.of_N (N_of_ascii ch)) :: cstring s'
  end.

Fixpoint poke_all (n : nat) (a : Z) (vs : list Z) (m : gmap Z byte) : gmap Z byte :=
  match vs with
  | [] => m
  | v :: vs' => poke n a v (poke_all n (a + Z.of_nat n) vs' m)
  end.

Definition B : Z := 0x140000000.
Definition K : Z := 0x7FF800000000.
Definition U : Z := 0x7FF900000000.

Definition headers (m : gmap Z byte) : gmap Z byte :=
  poke 2 B 0x5A4D
  (poke 4 (B + 0x3C) 0x80
  (poke 2 (B + 0x80 + 6) 3
  (poke 2 (B + 0x80 + 20) 0xF0
  (poke 4 (B + 0x98 + 16) 0x1000
  (poke 4 (B + 0x98 + 56) 0x5000
  (poke 4 (B + 0x98 + 112 + 8) 0x2000
  (poke 4 (B + 0x98 + 112 + 72) 0x3000 m))))))).

(** Descriptors are (OriginalFirstThunk, TimeDateStamp, ForwarderChain,
    Name, FirstThunk). *)
Definition imports (m : gmap Z byte) : gmap Z byte :=
  poke_all 4 (B + 0x2000)
    [ 0x2100; 0; 0; 0x2200; 0x2300;
      0x2110; 0; 0; 0x2210; 0x2310;
      0x2130; 0; 0; 0x2210; 0x2330;
      0; 0; 0; 0; 0 ]
  (store_bytes (B + 0x2200) (cstring "USER32.dll")
  (store_bytes (B + 0x2210) (cstring "KERNEL32.dll")
  (poke_all 8 (B + 0x2100) [0x2400; 0]
  (poke_all 8 (B + 0x2300) [U + 0x1000; 0]
  (poke_all 8 (B + 0x2110) [0x12410; 0x12420; 0]
  (poke_all 8 (B + 0x2310) [K + 0x1000; K + 0x2000; 0]
  (poke_all 8 (B + 0x2130) [0x12430; 0x8000000000000005; 0]
  (poke_all 8 (B + 0x2330) [K + 0x3000; 0x150000000; 0] m)))))))).

Definition tls (m : gmap Z byte) : gmap Z byte :=
  poke 8 (B + 0x3000 + 24) (B + 0x3100)
  (poke_all 8 (B + 0x3100) [B + 0x1100; B + 0x1200; 0] m).

Definition image : gmap Z byte :=
  headers (imports (tls (poke 2 K 0x5A4D (poke 2 U 0x5A4D ∅)))).

Definition module_table (name : string) : Z :=
  if String.eqb name "kernel32.dll" then K
  else if String.eqb name "user32.dll" then U
  else 0.

Definition exports (h : Z) (name : string) : Z :=
  if h =? K then
    if String.eqb name "CreateFileA" then K + 0x1000
    else if String.eqb name "ExitProcess" then K + 0x2000
    else if String.eqb name "Sleep" then K + 0x3000
    else if String.eqb name "VirtualAlloc" then K + 0x4000
    else if String.eqb name "GetTickCount" then K + 0x5000
    else 0
  else if h =? U then
    if String.eqb name "MessageBoxA" then U + 0x1000 else 0
  else 0.

Definition ordinals (h : Z) (ordinal : Z) : Z :=
  if (h =? K) && (ordinal =? 5) then K + 0x4000 else 0.

Definition file_name (h : Z) : string :=
  if h =? B then "C:\game\game.exe" else "".

Definition files (path : string) : option (list byte) :=
  if String.eqb path "C:\game\game.exe" then Some [x01; x02; x03; xff]
  else if String.eqb path "C:\game\empty.bin" then Some []
  else None.

Definition P : Process :=
  {| mem := image;
     GetModuleHandleA := module_table;
     GetProcAddress := exports;
     GetProcAddressOrdinal := ordinals;
     GetModuleFileNameA := file_name;
     open_file := files |}.

Definition this : Library := {| m_Module := B |}.

(** The import table of [image] as a lookup for kernel32.dll sees it:
    the descriptor for USER32.dll, whose name does not match, and the two
    descriptors for KERNEL32.dll. *)
Definition user32_view : import_view :=
  {| iv_Name := 0x2200; iv_cmp := 10;
     iv_OriginalFirstThunk := 0x2100; iv_FirstThunk := 0x2300;
     iv_thunks := [] |}.

Definition kernel32_first : import_view :=
  {| iv_Name := 0x2210; iv_cmp := 0;
     iv_OriginalFirstThunk := 0x2110; iv_FirstThunk := 0x2310;
     iv_thunks := [ {| AddressOfData := 0x12410; Function := K + 0x1000 |};
                    {| AddressOfData := 0x12420; Function := K + 0x2000 |} ] |}.

Definition kernel32_second : import_view :=
  {| iv_Name := 0x2210; iv_cmp := 0;
     iv_OriginalFirstThunk := 0x2130; iv_FirstThunk := 0x2330;
     iv_thunks := [ {| AddressOfData := 0x12430; Function := K + 0x3000 |};
                    {| AddressOfData := 0x8000000000000005;
                       Function := 0x150000000 |} ] |}.

Definition kernel32_imports : list import_view :=
  [user32_view; kernel32_first; kernel32_second].

Definition with_mem (m : gmap Z byte) (Q : Process) : Process :=
  {| mem := m;
     GetModuleHandleA := GetModuleHandleA Q;
     GetProcAddress := GetProcAddress Q;
     GetProcAddressOrdinal := GetProcAddressOrdinal Q;
     GetModuleFileNameA := GetModuleFileNameA Q;
     open_file := open_file Q |}.

(** The same process with the [Name] field of the second descriptor
    cleared, its other fields left as they are. *)
Definition P_cut : Process := with_mem (poke 4 (B + 0x2014 + 12) 0 image) P.

(** The same process with no TLS directory. *)
Definition P_no_tls : Process :=
  with_mem (poke 4 (B + 0x98 + 112 + 72) 0 image) P.

(** A handle that failed to load. *)
Definition unloaded : Library := {| m_Module := 0 |}.

End Fixture.

(** ** File name of the module *)

(** The characters of the set given to [find_last_of] at nt.cpp:119. *)
Definition is_path_separator (c : ascii) : bool :=
  Ascii.eqb c "/" || Ascii.eqb c "\".

(** [std::string::find_last_of]: the greatest index holding a character of
    the set, [None] for [npos]. *)
Fixpoint find_last_of (s : string) (chars : ascii → bool) : option nat :=
  match s with
  | EmptyString => None
  | String c rest =>
      match find_last_of rest chars with
      | Some pos => Some (S pos)
      | None => if chars c then Some 0%nat else None
      end
  end.

(** [std::string::substr(pos)]: the characters from [pos] on; [None] stands
    for the [std::out_of_range] it throws when [pos] is past the end. *)
Fixpoint substr (pos : nat) (s : string) : option string :=
  match pos, s with
  | O, _ => Some s
  | S k, String _ rest => substr k rest
  | S _, EmptyString => None
  end.

(* nt.cpp:113 — [None]: an exception left the function. *)
Definition GetName (P : Process) (this : Library) : result (option string) :=
  let* v := IsValid P this in
  if negb v then Ret (Some ""%string)
  else
    let* path := GetPath P this in
    match find_last_of path is_path_separator with
    | None => Ret (Some path)
    | Some pos => Ret (substr (pos + 1) path)
    end.

(** ** A process whose loader ignores case

    [GetModuleHandleA] compares module names without regard to case, as
    the import lookup does; the process of [Fixture] with such a loader. *)
Module FixtureCI.

Definition ascii_lower (c : ascii) : ascii :=
  ascii_of_N (Z.to_N (tolower (Z.of_N (N_of_ascii c)))).

Fixpoint string_lower (s : string) : string :=
  match s with
  | EmptyString => EmptyString
  | String c rest => String (ascii_lower c) (string_lower rest)
  end.

Definition P : Process :=
  {| mem := Fixture.image;
     GetModuleHandleA := λ name, Fixture.module_table (string_lower name);
     GetProcAddress := Fixture.exports;
     GetProcAddressOrdinal := Fixture.ordinals;
     GetModuleFileNameA := Fixture.file_name;
     open_file := Fixture.files |}.

End FixtureCI.

(** ** A process with three module files

    The modules at [Fixture.B], [Fixture.K] and [Fixture.U] are backed by
    the files a.bin, b.bin and ab.bin; b.bin holds the bytes of a.bin in
    another order. *)
Module FixtureFiles.

Definition a_bin : list byte := [xfe; x01; x80; x7f].
Definition b_bin : list byte := [x7f; x80; x01; xfe].

Definition file_name (h : Z) : string :=
  if h =? Fixture.B then "a.bin"
  else if h =? Fixture.K then "b.bin"
  else if h =? Fixture.U then "ab.bin"
  else "".

Definition files (path : string) : option (list byte) :=
  if String.eqb path "a.bin" then Some a_bin
  else if String.eqb path "b.bin" then Some b_bin
  else if String.eqb path "ab.bin" then Some (a_bin ++ b_bin)
  else None.

Definition P : Process :=
  {| mem := Fixture.image;
     GetModuleHandleA := Fixture.module_table;
     GetProcAddress := Fixture.exports;
     GetProcAddressOrdinal := Fixture.ordinals;
     GetModuleFileNameA := file_name;
     open_file := files |}.

Definition lib_a : Library := {| m_Module := Fixture.B |}.
Definition lib_b : Library := {| m_Module := Fixture.K |}.
Definition lib_ab : Library := {| m_Module := Fixture.U |}.

End FixtureFiles.

(** ** A slot of the image, read off the address space

    [slot] is the entry of index [i] of the address table of the
    descriptor of index [k] of the array at [desc]; that descriptor's name
    compares equal to [moduleName], and the slot, together with the entry of
    the same index of the descriptor's name table, matches the target. *)
Definition slot_in_image (P : Process) (this otherModule : Library)
    (moduleName : string) (targetFunction : Z) (desc slot : Z) : Prop :=
  ∃ (k i : nat) (Name oft ft : Z) (pair : thunk_pair),
    let d := ptr_add desc (Layout.sizeof_IMAGE_IMPORT_DESCRIPTOR * Z.of_nat k) in
    load32 (mem P) (ptr_add d Layout.Name) = Ret Name
    ∧ Name ≠ 0
    ∧ stricmp (mem P) (ptr_add (GetPtr this) Name) moduleName = Ret 0
    ∧ load32 (mem P) (ptr_add d Layout.OriginalFirstThunk) = Ret oft
    ∧ load32 (mem P) (ptr_add d Layout.FirstThunk) = Ret ft
    ∧ slot = ptr_add (ptr_add ft (GetPtr this))
               (Layout.sizeof_IMAGE_THUNK_DATA * Z.of_nat i)
    ∧ load64 (mem P)
        (ptr_add (ptr_add oft (GetPtr this))
           (Layout.sizeof_IMAGE_THUNK_DATA * Z.of_nat i))
      = Ret (AddressOfData pair)
    ∧ AddressOfData pair ≠ 0
    ∧ load64 (mem P) slot = Ret (Function pair)
    ∧ slot_matches P otherModule targetFunction pair = true.

(** ** A process with a second name for one module

    The loader knows the module at [Fixture.K] as ntdll.dll too, and its
    export [NtClose] is the address the image has bound, under the name
    KERNEL32.dll, in the first slot of its second descriptor. *)
Module FixtureAlias.

Definition module_table (name : string) : Z :=
  if String.eqb name "ntdll.dll" then Fixture.K else Fixture.module_table name.

Definition exports (h : Z) (name : string) : Z :=
  if (h =? Fixture.K) && String.eqb name "NtClose" then Fixture.K + 0x1000
  else Fixture.exports h name.

Definition P : Process :=
  {| mem := Fixture.image;
     GetModuleHandleA := module_table;
     GetProcAddress := exports;
     GetProcAddressOrdinal := Fixture.ordinals;
     GetModuleFileNameA := Fixture.file_name;
     open_file := Fixture.files |}.

(** The import table of the image as a lookup for ntdll.dll sees it. *)
Definition ntdll_imports : list import_view :=
  [ {| iv_Name := 0x2200; iv_cmp := 7;
       iv_OriginalFirstThunk := 0x2100; iv_FirstThunk := 0x2300;
       iv_thunks := [] |};
    {| iv_Name := 0x2210; iv_cmp := -3;
       iv_OriginalFirstThunk := 0x2110; iv_FirstThunk := 0x2310;
       iv_thunks := [] |};
    {| iv_Name := 0x2210; iv_cmp := -3;
       iv_OriginalFirstThunk := 0x2130; iv_FirstThunk := 0x2330;
       iv_thunks := [] |} ].

End FixtureAlias.

(** ** A process whose image stores a negative [e_lfanew]

    The image of [Fixture] with the bit pattern of -16 in [e_lfanew]. *)
Module FixtureNegative.

Definition P : Process :=
  Fixture.with_mem (Fixture.poke 4 (Fixture.B + 0x3C) 0xFFFFFFF0 Fixture.image)
    Fixture.P.

End FixtureNegative.

(** * Properties *)

(** ** The result monad and machine arithmetic *)

Lemma bind_Ret_inv {A B : Type} (r : result A) (k : A → result B) (b : B) :
  bind r k = Ret b → ∃ a, r = Ret a ∧ k a = Ret b.
Proof. destruct r as [a| |]; simpl; intros H; try discriminate. by exists a. Qed.

Lemma two_64_pos : 0 < 2 ^ 64.
Proof. reflexivity. Qed.

Lemma wrap64_range (v : Z) : 0 ≤ wrap64 v < 2 ^ 64.
Proof. unfold wrap64, wrap. apply Z.mod_pos_bound, two_64_pos. Qed.

Lemma ptr_add_range (p k : Z) : 0 ≤ ptr_add p k < 2 ^ 64.
Proof. apply wrap64_range. Qed.

Lemma ptr_add_small (p k : Z) : 0 ≤ p + k < 2 ^ 64 → ptr_add p k = p + k.
Proof. intros H. unfold ptr_add, wrap64, wrap. by apply Z.mod_small. Qed.

Lemma ptr_add_assoc (p a b : Z) : ptr_add (ptr_add p a) b = ptr_add p (a + b).
Proof.
  unfold ptr_add, wrap64, wrap.
  rewrite Z.add_mod_idemp_l by discriminate. f_equal. lia.
Qed.

Lemma ptr_add_0 (p : Z) : 0 ≤ p < 2 ^ 64 → ptr_add p 0 = p.
Proof. intros H. rewrite ptr_add_small by lia. lia. Qed.

Lemma byte_val_range (b : byte) : 0 ≤ byte_val b < 256.
Proof.
  unfold byte_val. pose proof (Byte.to_N_bounded b). lia.
Qed.

Lemma load_le_range (n : nat) (m : gmap Z byte) (a v : Z) :
  load_le n m a = Ret v → 0 ≤ v < 256 ^ Z.of_nat n.
Proof.
  revert a v. induction n as [|n IH]; intros a v H.
  - simpl in H. injection H as <-. simpl. lia.
  - cbn [load_le] in H.
    apply bind_Ret_inv in H as (b & Hb & H).
    apply bind_Ret_inv in H as (hi & Hhi & H).
    injection H as <-.
    unfold load8 in Hb. destruct (m !! a) as [x|]; [|discriminate].
    injection Hb as <-.
    pose proof (byte_val_range x). apply IH in Hhi.
    rewrite Nat2Z.inj_succ, Z.pow_succ_r by lia. nia.
Qed.

Lemma load16_range (m : gmap Z byte) (a v : Z) :
  load16 m a = Ret v → 0 ≤ v < 65536.
Proof. intros H. apply load_le_range in H. exact H. Qed.

(** ** The validity guard *)

Lemma IsValid_null (P : Process) (this : Library) :
  m_Module this = 0 → IsValid P this = Ret false.
Proof. intros H. unfold IsValid. by rewrite H. Qed.

Lemma IsValid_true_nonnull (P : Process) (this : Library) :
  IsValid P this = Ret true → m_Module this ≠ 0.
Proof.
  unfold IsValid. intros H Hz. rewrite Hz in H. discriminate.
Qed.

Lemma invalid_module_IsValid (P : Process) (this : Library) :
  invalid_module P this → IsValid P this = Ret false.
Proof.
  intros [Hz | (magic & Hload & Hne)].
  - by apply IsValid_null.
  - unfold IsValid. destruct (m_Module this =? 0); [done|].
    rewrite Hload. simpl. f_equal. by apply Z.eqb_neq.
Qed.

Lemma GetNTHeaders_invalid (P : Process) (this : Library) :
  IsValid P this = Ret false → GetNTHeaders P this = Ret 0.
Proof. intros H. unfold GetNTHeaders. by rewrite H. Qed.

Lemma GetOptionalHeader_invalid (P : Process) (this : Library) :
  IsValid P this = Ret false → GetOptionalHeader P this = Ret 0.
Proof. intros H. unfold GetOptionalHeader. by rewrite H. Qed.

Lemma GetOptionalHeader_valid (P : Process) (this : Library) (nt : Z) :
  IsValid P this = Ret true → GetNTHeaders P this = Ret nt →
  GetOptionalHeader P this = Ret (ptr_add nt Layout.OptionalHeader).
Proof. intros Hv Hnt. unfold GetOptionalHeader. by rewrite Hv, Hnt. Qed.

Lemma GetIATEntry_invalid (fuel : nat) (P : Process) (this : Library)
    (moduleName procName : string) :
  IsValid P this = Ret false → GetIATEntry fuel P this moduleName procName = Ret 0.
Proof. intros H. unfold GetIATEntry. by rewrite H. Qed.

(** ** Section table *)

Lemma section_loop_in_order (count : nat) (section : Z) :
  0 < section →
  section + Layout.sizeof_IMAGE_SECTION_HEADER * Z.of_nat count ≤ 2 ^ 64 →
  section_loop count section
  = (λ i : nat, section + Layout.sizeof_IMAGE_SECTION_HEADER * Z.of_nat i)
      <$> seq 0 count.
Proof.
  unfold Layout.sizeof_IMAGE_SECTION_HEADER.
  revert section. induction count as [|k IH]; intros section Hpos Hfit; [done|].
  cbn [section_loop seq fmap list_fmap].
  destruct (Z.eqb_spec section 0) as [->|_]; [lia|].
  simpl app. f_equal; [lia|].
  destruct k as [|k']; [done|].
  unfold Layout.sizeof_IMAGE_SECTION_HEADER.
  rewrite ptr_add_small by lia.
  rewrite IH by lia.
  rewrite <- fmap_S_seq, <- list_fmap_compose.
  apply list_fmap_ext. intros _ i _. simpl. lia.
Qed.

(** C7. For an image whose NT headers are at [nt], with [n] the section
    count of its file header and [optsize] the size of its optional header,
    and whose section table lies inside the 64-bit address space,
    [GetSectionHeaders] returns exactly [n] references: the [i]-th is the
    address of the [i]-th 40-byte record after the end of the optional
    header, in table order. *)
Theorem GetSectionHeaders_exactly_N (P : Process) (this : Library) (nt optsize n : Z) :
  IsValid P this = Ret true →
  GetNTHeaders P this = Ret nt →
  load16 (mem P) (ptr_add nt Layout.FileHeader_SizeOfOptionalHeader) = Ret optsize →
  load16 (mem P) (ptr_add nt Layout.FileHeader_NumberOfSections) = Ret n →
  nt + Layout.OptionalHeader + optsize
    + Layout.sizeof_IMAGE_SECTION_HEADER * n ≤ 2 ^ 64 →
  let first := nt + Layout.OptionalHeader + optsize in
  let headers :=
    (λ i : nat, first + Layout.sizeof_IMAGE_SECTION_HEADER * Z.of_nat i)
      <$> seq 0 (Z.to_nat n) in
  GetSectionHeaders P this = Ret headers ∧ length headers = Z.to_nat n.
Proof.
  intros _ Hnt Hsz Hn Hfit first headers. split.
  2: { subst headers. by rewrite length_fmap, length_seq. }
  unfold GetSectionHeaders. rewrite Hnt. cbn [bind]. rewrite Hsz. cbn [bind].
  rewrite Hn. cbn [bind]. f_equal. subst headers first.
  assert (0 ≤ nt < 2 ^ 64) as Hnt_range.
  { unfold GetNTHeaders in Hnt.
    apply bind_Ret_inv in Hnt as (v & _ & Hnt).
    destruct v; simpl in Hnt.
    - apply bind_Ret_inv in Hnt as (l & _ & Hnt). injection Hnt as <-.
      apply ptr_add_range.
    - injection Hnt as <-. lia. }
  apply load16_range in Hsz, Hn.
  unfold Layout.OptionalHeader, Layout.sizeof_IMAGE_SECTION_HEADER in *.
  destruct (Z.to_nat n) as [|k] eqn:Hk; [done|].
  rewrite <- Hk.
  rewrite (ptr_add_small nt) by lia.
  rewrite ptr_add_small by lia.
  apply section_loop_in_order; unfold Layout.sizeof_IMAGE_SECTION_HEADER; lia.
Qed.

(** ** TLS callbacks *)

Lemma tls_loop_collects (m : gmap Z byte) (ptrs : list Z) :
  ∀ (a : Z) (callbacks : list Z) (fuel : nat),
    callback_array m a ptrs → (length ptrs < fuel)%nat →
    tls_loop fuel m a callbacks = Ret (callbacks ++ ptrs).
Proof.
  induction ptrs as [|p rest IH]; intros a callbacks fuel Harr Hfuel;
    (destruct fuel as [|fuel]; [simpl in Hfuel; lia|]); cbn [tls_loop].
  - simpl in Harr. rewrite Harr. simpl. by rewrite app_nil_r.
  - destruct Harr as (Hp & Hload & Hrest).
    rewrite Hload. cbn [bind].
    destruct (Z.eqb_spec p 0) as [?|_]; [done|].
    rewrite (IH _ _ _ Hrest) by (simpl in Hfuel; lia).
    by rewrite <- app_assoc.
Qed.

(** C6. [GetTlsCallbacks] returns the empty sequence when the TLS entry of
    the data directory has a zero virtual address; otherwise, when the
    callback array holds [k] non-null pointers followed by a null slot, it
    returns exactly those [k] pointers in array order (given a step budget
    above [k]). *)
Theorem GetTlsCallbacks_spec (P : Process) (this : Library) (header va : Z) :
  GetOptionalHeader P this = Ret header →
  load32 (mem P) (data_directory_va header Layout.IMAGE_DIRECTORY_ENTRY_TLS) = Ret va →
  (va = 0 → ∀ fuel, GetTlsCallbacks fuel P this = Ret [])
  ∧ (va ≠ 0 →
     ∀ (array : Z) (ptrs : list Z) (fuel : nat),
       load64 (mem P)
         (ptr_add (ptr_add (GetPtr this) va) Layout.AddressOfCallBacks) = Ret array →
       callback_array (mem P) array ptrs →
       (length ptrs < fuel)%nat →
       GetTlsCallbacks fuel P this = Ret ptrs).
Proof.
  intros Hh Hva. split.
  - intros -> fuel. unfold GetTlsCallbacks. rewrite Hh. cbn [bind].
    by rewrite Hva.
  - intros Hne array ptrs fuel Harr Hptrs Hfuel.
    unfold GetTlsCallbacks. rewrite Hh. cbn [bind]. rewrite Hva. cbn [bind].
    destruct (Z.eqb_spec va 0) as [?|_]; [done|].
    rewrite Harr. cbn [bind].
    by rewrite (tls_loop_collects _ ptrs).
Qed.

(** ** Module names are compared without regard to case *)

Lemma tolower_zero (c : Z) : tolower c = 0 ↔ c = 0.
Proof.
  unfold tolower. destruct (Z.leb_spec 65 c), (Z.leb_spec c 90); simpl; lia.
Qed.

Lemma stricmp_zero_iff (m : gmap Z byte) (s : string) :
  ∀ (a : Z) (cs : list Z),
    cstring_at m a cs →
    Forall (λ c, c ≠ 0) (string_codes s) →
    ∃ d, stricmp m a s = Ret d
         ∧ (d = 0 ↔ tolower <$> cs = tolower <$> string_codes s).
Proof.
  induction s as [|ch s IH]; intros a cs Hat Hs.
  - cbn [stricmp char_code string_codes]. destruct cs as [|c rest].
    + simpl in Hat. rewrite Hat. by exists 0.
    + destruct Hat as (Hc & Hload & _). rewrite Hload. cbn [bind].
      pose proof (tolower_zero c) as Hz.
      change (tolower 0) with 0. rewrite Z.sub_0_r.
      destruct (Z.eqb_spec (tolower c) 0) as [?|Hne]; [tauto|].
      exists (tolower c). split; [done|]. split; [done|]. discriminate.
  - cbn [string_codes] in Hs. apply Forall_cons in Hs as (Hx & Hs).
    cbn [stricmp char_code string_codes].
    set (x := Z.of_N (N_of_ascii ch)) in *.
    destruct cs as [|c rest].
    + simpl in Hat. rewrite Hat. cbn [bind].
      change (tolower 0) with 0. pose proof (tolower_zero x) as Hz.
      destruct (Z.eqb_spec (0 - tolower x) 0) as [?|Hne]; [lia|].
      exists (0 - tolower x). split; [done|]. split; [done|]. discriminate.
    + destruct Hat as (Hc & Hload & Hrest). rewrite Hload. cbn [bind].
      destruct (Z.eqb_spec (tolower c - tolower x) 0) as [Heq|Hne]; cbn [negb].
      * destruct (Z.eqb_spec c 0) as [?|_]; [done|].
        destruct (IH _ _ Hrest Hs) as (d & -> & Hd). exists d. split; [done|].
        rewrite Hd. cbn [fmap list_fmap]. split.
        -- intros ->. f_equal. lia.
        -- by intros [= _ ?].
      * exists (tolower c - tolower x). split; [done|]. split; [done|].
        cbn [fmap list_fmap]. intros [= ? _]. lia.
Qed.

(** ** Import lookup: the loops against the searches *)

Section lookup.
Context (P : Process) (this otherModule : Library)
        (moduleName : string) (targetFunction : Z).

Local Abbreviation thunks fuel := (thunk_loop fuel P otherModule targetFunction).
Local Abbreviation descriptors fuel :=
  (descriptor_loop fuel P this otherModule moduleName targetFunction).
Local Abbreviation matches := (slot_matches P otherModule targetFunction).

Lemma by_ordinal_true (p : thunk_pair) :
  by_ordinal P otherModule targetFunction p = true
  ↔ Z.land (AddressOfData p) 0xFFFFFFF ≤ 0xFFFF
     ∧ GetProcAddressOrdinal P (m_Module otherModule)
         (Z.land (AddressOfData p) 0xFFFFFFF) = targetFunction.
Proof.
  unfold by_ordinal, ordinal_mask, ordinal_max.
  rewrite andb_true_iff, Z.leb_le, Z.eqb_eq. done.
Qed.

(** One turn of the inner loop on a pair that is in place. *)
Lemma thunk_loop_step (fuel : nat) (o t : Z) (p : thunk_pair) :
  AddressOfData p ≠ 0 →
  load64 (mem P) o = Ret (AddressOfData p) →
  load64 (mem P) t = Ret (Function p) →
  thunks (S fuel) o t
  = if matches p then Ret (Some t)
    else thunks fuel (ptr_add o Layout.sizeof_IMAGE_THUNK_DATA)
           (ptr_add t Layout.sizeof_IMAGE_THUNK_DATA).
Proof.
  intros Hnz Ho Ht. cbn [thunk_loop]. rewrite Ho. cbn [bind].
  destruct (Z.eqb_spec (AddressOfData p) 0) as [?|_]; [done|].
  rewrite Ht. cbn [bind].
  unfold slot_matches, by_address, by_ordinal.
  destruct (Function p =? targetFunction); [done|]. cbn [orb].
  destruct (Z.land (AddressOfData p) ordinal_mask <=? ordinal_max); [|done].
  cbn [andb].
  by destruct (GetProcAddressOrdinal P (m_Module otherModule) _ =? targetFunction).
Qed.

Lemma thunk_loop_first_match (pairs : list thunk_pair) :
  ∀ (o t : Z) (fuel : nat),
    thunks_at (mem P) o t pairs → (length pairs < fuel)%nat →
    thunks fuel o t = Ret (first_match P otherModule targetFunction t pairs).
Proof.
  induction pairs as [|p rest IH]; intros o t fuel Hat Hfuel;
    (destruct fuel as [|fuel]; [simpl in Hfuel; lia|]).
  - simpl in Hat. cbn [thunk_loop]. by rewrite Hat.
  - destruct Hat as (Hnz & Ho & Ht & Hrest).
    rewrite (thunk_loop_step _ _ _ p) by done.
    cbn [first_match]. destruct (matches p); [done|].
    apply IH; [done|]. simpl in Hfuel. lia.
Qed.

(** One turn of the outer loop on a descriptor that is in place. *)
Lemma descriptor_loop_step (fuel : nat) (desc : Z) (d : import_view)
    (rest : list import_view) :
  imports_at P this moduleName desc (d :: rest) →
  (length (iv_thunks d) < fuel)%nat →
  descriptors (S fuel) desc
  = match (if name_matches d
           then first_match_in P this otherModule targetFunction d
           else None) with
    | Some slot => Ret slot
    | None =>
        descriptors fuel (ptr_add desc Layout.sizeof_IMAGE_IMPORT_DESCRIPTOR)
    end.
Proof.
  intros (Hnz & HName & Hcmp & Htables & _) Hfuel.
  cbn [descriptor_loop]. rewrite HName. cbn [bind].
  destruct (Z.eqb_spec (iv_Name d) 0) as [?|_]; [done|].
  rewrite Hcmp. cbn [bind]. unfold name_matches.
  destruct (Z.eqb_spec (iv_cmp d) 0) as [Hz|_]; [|done].
  destruct (Htables Hz) as (Hoft & Hft & Hthunks).
  rewrite Hoft, Hft. cbn [bind].
  rewrite (thunk_loop_first_match _ _ _ _ Hthunks Hfuel). cbn [bind].
  unfold first_match_in.
  by destruct (first_match _ _ _ _ _).
Qed.

Lemma descriptor_loop_lookup (ds : list import_view) :
  ∀ (desc : Z) (fuel : nat),
    imports_at P this moduleName desc ds → (fuel_needed ds ≤ fuel)%nat →
    descriptors fuel desc
    = Ret (default 0 (lookup_slot P this otherModule targetFunction ds)).
Proof.
  induction ds as [|d rest IH]; intros desc fuel Hat Hfuel;
    (destruct fuel as [|fuel]; [simpl in Hfuel; lia|]).
  - simpl in Hat. cbn [descriptor_loop]. by rewrite Hat.
  - cbn [fuel_needed] in Hfuel.
    rewrite (descriptor_loop_step _ _ d rest) by (done || lia).
    pose proof Hat as (_ & _ & _ & _ & Hrest).
    cbn [lookup_slot].
    destruct (name_matches d);
      [destruct (first_match_in _ _ _ _ d); [done|]|];
      apply IH; (done || lia).
Qed.

(** What the searches find. *)

Lemma first_match_Some (pairs : list thunk_pair) :
  ∀ (t slot : Z),
    0 ≤ t < 2 ^ 64 →
    first_match P otherModule targetFunction t pairs = Some slot →
    ∃ (i : nat) (p : thunk_pair),
      pairs !! i = Some p ∧ matches p = true
      ∧ slot = ptr_add t (Layout.sizeof_IMAGE_THUNK_DATA * Z.of_nat i)
      ∧ ∀ (j : nat) (q : thunk_pair),
          (j < i)%nat → pairs !! j = Some q → matches q = false.
Proof.
  induction pairs as [|p rest IH]; intros t slot Ht H; [done|].
  cbn [first_match] in H. destruct (matches p) eqn:Hp.
  - injection H as <-. exists 0%nat, p. repeat split; [done| |intros; lia].
    by rewrite Z.mul_0_r, ptr_add_0.
  - apply IH in H as (i & q & Hi & Hq & -> & Hbefore); [|apply ptr_add_range].
    exists (S i), q. repeat split; [done..| |].
    + rewrite ptr_add_assoc. f_equal. unfold Layout.sizeof_IMAGE_THUNK_DATA. lia.
    + intros [|j] r Hj Hr; [by injection Hr as <-|].
      apply (Hbefore j); [lia|done].
Qed.

Lemma first_match_None (pairs : list thunk_pair) (t : Z) :
  first_match P otherModule targetFunction t pairs = None
  ↔ ∀ p, p ∈ pairs → matches p = false.
Proof.
  revert t. induction pairs as [|p rest IH]; intros t; cbn [first_match].
  - split; [|done]. intros _ p Hp. by apply elem_of_nil in Hp.
  - destruct (matches p) eqn:Hp.
    + split; [done|]. intros H. specialize (H p (list_elem_of_here _ _)).
      congruence.
    + rewrite IH. split.
      * intros H q Hq. apply elem_of_cons in Hq as [->|Hq]; auto.
      * intros H q Hq. apply H. by apply list_elem_of_further.
Qed.

Lemma lookup_slot_Some (ds : list import_view) (slot : Z) :
  lookup_slot P this otherModule targetFunction ds = Some slot →
  bound_slot P this otherModule targetFunction ds slot.
Proof.
  induction ds as [|d rest IH]; intros H; [done|].
  cbn [lookup_slot] in H.
  assert (bound_slot P this otherModule targetFunction rest slot →
          bound_slot P this otherModule targetFunction (d :: rest) slot) as Hweak.
  { intros (d' & i & p & Hin & Hrest). exists d', i, p.
    split; [by apply list_elem_of_further|done]. }
  destruct (name_matches d) eqn:Hname; [|by apply Hweak, IH].
  destruct (first_match_in P this otherModule targetFunction d) as [s|] eqn:Hfm;
    [|by apply Hweak, IH].
  injection H as ->.
  apply first_match_Some in Hfm as (i & p & Hi & Hp & -> & _);
    [|apply ptr_add_range].
  exists d, i, p. repeat split; [apply list_elem_of_here|done..].
Qed.

Lemma lookup_slot_None (ds : list import_view) :
  lookup_slot P this otherModule targetFunction ds = None
  ↔ ∀ d p, d ∈ ds → name_matches d = true → p ∈ iv_thunks d → matches p = false.
Proof.
  induction ds as [|d rest IH]; cbn [lookup_slot].
  - split; [|done]. intros _ d p Hd. by apply elem_of_nil in Hd.
  - destruct (name_matches d) eqn:Hname.
    + destruct (first_match_in P this otherModule targetFunction d) as [s|] eqn:Hfm.
      * split; [done|]. intros H. exfalso.
        assert (first_match_in P this otherModule targetFunction d = None) as Hn;
          [|congruence].
        apply first_match_None. intros p Hp.
        by apply (H d p (list_elem_of_here _ _)).
      * rewrite IH. split.
        -- intros H d' p Hd' Hn Hp. apply elem_of_cons in Hd' as [->|Hd'].
           ++ by apply (proj1 (first_match_None _ _) Hfm).
           ++ by apply (H d' p).
        -- intros H d' p Hd'. apply H. by apply list_elem_of_further.
    + rewrite IH. split.
      * intros H d' p Hd' Hn Hp. apply elem_of_cons in Hd' as [->|Hd'];
          [congruence|by apply (H d' p)].
      * intros H d' p Hd'. apply H. by apply list_elem_of_further.
Qed.

Lemma first_match_at (pairs : list thunk_pair) :
  ∀ (t : Z) (i : nat) (p : thunk_pair),
    0 ≤ t < 2 ^ 64 →
    pairs !! i = Some p → matches p = true →
    (∀ (j : nat) (q : thunk_pair),
       (j < i)%nat → pairs !! j = Some q → matches q = false) →
    first_match P otherModule targetFunction t pairs
    = Some (ptr_add t (Layout.sizeof_IMAGE_THUNK_DATA * Z.of_nat i)).
Proof.
  induction pairs as [|q rest IH]; intros t i p Ht Hi Hp Hbefore; [done|].
  cbn [first_match]. destruct i as [|i].
  - injection Hi as ->. rewrite Hp. by rewrite Z.mul_0_r, ptr_add_0.
  - rewrite (Hbefore 0%nat q) by (done || lia).
    rewrite (IH _ i p); [|apply ptr_add_range|done..|].
    + rewrite ptr_add_assoc. do 2 f_equal.
      unfold Layout.sizeof_IMAGE_THUNK_DATA. lia.
    + intros j r Hj Hr. apply (Hbefore (S j)); [lia|done].
Qed.

End lookup.

(** C1. On a valid module, [GetIATEntry] answers null when the target
    symbol cannot be resolved (the target module is not loaded, or the
    export resolver knows no such symbol).  Otherwise, over an import table
    that is in place, it answers the address of a slot bound to the
    resolved address, by its current value or through its ordinal, in a
    descriptor naming the target module — the first such slot in table
    order — and null when no slot of any descriptor matches. *)
Theorem GetIATEntry_correct (P : Process) (this : Library)
    (moduleName procName : string) (ov : bool) :
  let otherModule := Library_named P moduleName in
  let targetFunction := GetProc P otherModule procName in
  IsValid P this = Ret true →
  IsValid P otherModule = Ret ov →
  (ov = false ∨ targetFunction = 0 →
   ∀ fuel, GetIATEntry fuel P this moduleName procName = Ret 0)
  ∧ (ov = true → targetFunction ≠ 0 →
     ∀ (header va : Z) (ds : list import_view) (fuel : nat),
       GetOptionalHeader P this = Ret header → header ≠ 0 →
       load32 (mem P)
         (data_directory_va header Layout.IMAGE_DIRECTORY_ENTRY_IMPORT) = Ret va →
       imports_at P this moduleName (ptr_add (GetPtr this) va) ds →
       (fuel_needed ds ≤ fuel)%nat →
       ∃ found : option Z,
         GetIATEntry fuel P this moduleName procName = Ret (default 0 found)
         ∧ found = lookup_slot P this otherModule targetFunction ds
         ∧ (∀ slot, found = Some slot →
              bound_slot P this otherModule targetFunction ds slot)
         ∧ ((∀ d p, d ∈ ds → p ∈ iv_thunks d →
               slot_matches P otherModule targetFunction p = false) →
            found = None)
         ∧ (found = None →
            ∀ d p, d ∈ ds → name_matches d = true → p ∈ iv_thunks d →
              slot_matches P otherModule targetFunction p = false)).
Proof.
  intros otherModule targetFunction Hv Hov. split.
  - intros Hun fuel. unfold GetIATEntry. rewrite Hv. cbn [bind negb].
    fold otherModule. rewrite Hov. cbn [bind].
    destruct ov; [|done]. destruct Hun as [?|Hz]; [done|].
    cbn [negb]. fold targetFunction. by rewrite Hz.
  - intros -> Hres header va ds fuel Hh Hhnz Hva Hat Hfuel.
    exists (lookup_slot P this otherModule targetFunction ds).
    split; [|split; [done|split; [|split]]].
    + unfold GetIATEntry. rewrite Hv. cbn [bind negb].
      fold otherModule. rewrite Hov. cbn [bind negb]. fold targetFunction.
      destruct (Z.eqb_spec targetFunction 0) as [?|_]; [done|].
      rewrite Hh. cbn [bind].
      destruct (Z.eqb_spec header 0) as [?|_]; [done|].
      rewrite Hva. cbn [bind].
      by apply descriptor_loop_lookup.
    + intros slot. apply lookup_slot_Some.
    + intros Hnone. apply lookup_slot_None. intros d p Hd _ Hp. by apply (Hnone d).
    + apply lookup_slot_None.
Qed.

(** C3. Over an import table that is in place, a descriptor whose name
    matches and in which no slot matches does not end the scan: the loop
    goes on with the descriptor after it, exactly as it does after a
    descriptor whose name does not match.  The scan leaves early only for a
    matching slot of a matching descriptor, which it returns; and a
    non-null answer is always such a slot. *)
Theorem descriptor_scan_continues (P : Process) (this otherModule : Library)
    (moduleName : string) (targetFunction : Z) (desc : Z)
    (d : import_view) (rest : list import_view) (fuel : nat) :
  imports_at P this moduleName desc (d :: rest) →
  (fuel_needed (d :: rest) ≤ fuel)%nat →
  let scan fuel' from :=
    descriptor_loop fuel' P this otherModule moduleName targetFunction from in
  let next := ptr_add desc Layout.sizeof_IMAGE_IMPORT_DESCRIPTOR in
  (name_matches d = true →
   first_match_in P this otherModule targetFunction d = None →
   ∀ fuel', (fuel_needed rest ≤ fuel')%nat → scan fuel desc = scan fuel' next)
  ∧ (name_matches d = false →
     ∀ fuel', (fuel_needed rest ≤ fuel')%nat → scan fuel desc = scan fuel' next)
  ∧ (name_matches d = true →
     ∀ slot, first_match_in P this otherModule targetFunction d = Some slot →
       scan fuel desc = Ret slot)
  ∧ (∀ r, scan fuel desc = Ret r → r ≠ 0 →
       bound_slot P this otherModule targetFunction (d :: rest) r).
Proof.
  intros Hat Hfuel scan next. subst scan next.
  pose proof Hat as (_ & _ & _ & _ & Hrest).
  destruct fuel as [|fuel]; [simpl in Hfuel; lia|].
  cbn [fuel_needed] in Hfuel.
  pose proof (descriptor_loop_step P this otherModule moduleName targetFunction
                fuel desc d rest Hat ltac:(lia)) as Hstep.
  repeat split.
  - intros Hname Hnone fuel' Hfuel'. rewrite Hstep, Hname, Hnone.
    rewrite !(descriptor_loop_lookup _ _ _ _ _ rest) by (done || lia). done.
  - intros Hname fuel' Hfuel'. rewrite Hstep, Hname.
    rewrite (descriptor_loop_lookup _ _ _ _ _ rest _ fuel Hrest) by lia.
    by rewrite (descriptor_loop_lookup _ _ _ _ _ rest _ fuel' Hrest).
  - intros Hname slot Hsome. by rewrite Hstep, Hname, Hsome.
  - intros r Hr Hnz.
    rewrite (descriptor_loop_lookup _ _ _ _ _ (d :: rest) _ _ Hat) in Hr
      by (cbn [fuel_needed]; lia).
    destruct (lookup_slot P this otherModule targetFunction (d :: rest))
      as [slot|] eqn:Hl; cbn [default] in Hr; injection Hr as <-;
      [by apply lookup_slot_Some|done].
Qed.

Lemma Name_zero_ends_scan (P : Process) (desc : Z) :
  load32 (mem P) (ptr_add desc Layout.Name) = Ret 0 → ends_scan P desc.
Proof.
  intros H fuel this otherModule moduleName targetFunction.
  cbn [descriptor_loop]. by rewrite H.
Qed.

(** C4, as the code has it.  The outer loop takes a descriptor for the end
    of the table exactly when its [Name] field reads zero.  An all-zero
    descriptor therefore ends the scan; the other four fields are never
    consulted for that. *)
Theorem ends_scan_iff_Name_zero (P : Process) (desc : Z) :
  (ends_scan P desc ↔ load32 (mem P) (ptr_add desc Layout.Name) = Ret 0)
  ∧ (all_zero P desc → ends_scan P desc).
Proof.
  pose proof (Name_zero_ends_scan P desc) as Hstop.
  split; [split; [|done]|].
  - intros H.
    specialize (H 0%nat {| m_Module := 0 |} {| m_Module := 0 |} ""%string 0).
    cbn [descriptor_loop] in H.
    destruct (load32 (mem P) (ptr_add desc Layout.Name)) as [n| |];
      cbn [bind] in H; try discriminate.
    destruct (Z.eqb_spec n 0) as [->|_]; [done|]. exfalso.
    destruct (stricmp _ _ _) as [c| |]; cbn [bind] in H; try discriminate.
    destruct (c =? 0); [|discriminate].
    destruct (load32 _ (ptr_add desc Layout.OriginalFirstThunk)) as [oft| |];
      cbn [bind] in H; try discriminate.
    destruct (load32 _ (ptr_add desc Layout.FirstThunk)) as [ft| |];
      cbn [bind] in H; discriminate.
  - intros (_ & _ & _ & HName & _). by apply Hstop.
Qed.

(** C5. For a pair whose current thunk value is not the target address:
    when the low 28 bits of the original thunk entry are at most 0xFFFF and
    the export resolver maps that ordinal of the target module to the
    target address, the inner loop returns the address of this slot; in
    every other case it passes the slot over and goes on with the next
    pair.  So an import bound only through its ordinal is found: with no
    earlier matching slot in the table, the loop answers its address. *)
Theorem ordinal_fallback (P : Process) (otherModule : Library) (targetFunction : Z)
    (o t : Z) (p : thunk_pair) :
  let ordinalNumber := Z.land (AddressOfData p) 0xFFFFFFF in
  let resolves :=
    ordinalNumber ≤ 0xFFFF
    ∧ GetProcAddressOrdinal P (m_Module otherModule) ordinalNumber = targetFunction in
  AddressOfData p ≠ 0 →
  load64 (mem P) o = Ret (AddressOfData p) →
  load64 (mem P) t = Ret (Function p) →
  Function p ≠ targetFunction →
  (resolves →
   ∀ fuel, thunk_loop (S fuel) P otherModule targetFunction o t = Ret (Some t))
  ∧ (¬ resolves →
     ∀ fuel,
       thunk_loop (S fuel) P otherModule targetFunction o t
       = thunk_loop fuel P otherModule targetFunction
           (ptr_add o Layout.sizeof_IMAGE_THUNK_DATA)
           (ptr_add t Layout.sizeof_IMAGE_THUNK_DATA))
  ∧ (resolves →
     ∀ (first_o first_t : Z) (pairs : list thunk_pair) (i : nat) (fuel : nat),
       thunks_at (mem P) first_o first_t pairs →
       0 ≤ first_t < 2 ^ 64 →
       pairs !! i = Some p →
       (∀ (j : nat) (q : thunk_pair), (j < i)%nat → pairs !! j = Some q →
          slot_matches P otherModule targetFunction q = false) →
       (length pairs < fuel)%nat →
       thunk_loop fuel P otherModule targetFunction first_o first_t
       = Ret (Some (ptr_add first_t
                      (Layout.sizeof_IMAGE_THUNK_DATA * Z.of_nat i)))).
Proof.
  intros ordinalNumber resolves Hnz Ho Ht Hne.
  assert (slot_matches P otherModule targetFunction p = true ↔ resolves) as Hm.
  { unfold slot_matches, by_address.
    destruct (Z.eqb_spec (Function p) targetFunction) as [?|_]; [done|].
    cbn [orb]. apply by_ordinal_true. }
  repeat split.
  - intros Hres fuel. rewrite (thunk_loop_step _ _ _ _ _ _ p) by done.
    by rewrite (proj2 Hm Hres).
  - intros Hres fuel. rewrite (thunk_loop_step _ _ _ _ _ _ p) by done.
    destruct (slot_matches P otherModule targetFunction p); [|done].
    by destruct Hres; apply Hm.
  - intros Hres first_o first_t pairs i fuel Hat Hrange Hi Hbefore Hfuel.
    rewrite (thunk_loop_first_match _ _ _ pairs) by done. f_equal.
    apply (first_match_at _ _ _ _ _ _ p); [done..| |done].
    by apply Hm.
Qed.

(** ** Checksum *)

Lemma checksum_step_val (checksum : Z) (b : byte) :
  checksum_step checksum b = (checksum + byte_val b) mod 2 ^ 32.
Proof.
  unfold checksum_step, wrap32, wrap, to_uint8, wrap, char_of_byte.
  pose proof (byte_val_range b) as Hb. f_equal. f_equal.
  destruct (Z.ltb_spec (byte_val b) 128).
  - apply Z.mod_small. lia.
  - replace (byte_val b - 256) with (byte_val b + (-1) * 2 ^ 8) by lia.
    rewrite Z.mod_add by discriminate. apply Z.mod_small. lia.
Qed.

Lemma fold_checksum (content : list byte) :
  ∀ checksum, 0 ≤ checksum < 2 ^ 32 →
    fold_left checksum_step content checksum
    = (checksum + byte_sum content) mod 2 ^ 32.
Proof.
  induction content as [|b rest IH]; intros checksum Hrange; cbn [fold_left byte_sum foldr].
  - rewrite Z.add_0_r. symmetry. by apply Z.mod_small.
  - rewrite IH by (rewrite checksum_step_val; by apply Z.mod_pos_bound).
    rewrite checksum_step_val. fold (byte_sum rest).
    rewrite Z.add_mod_idemp_l by discriminate. f_equal. lia.
Qed.

(** C8. [GetChecksum] returns 0 when the file at the module's path cannot
    be opened, 0 for an empty file, and otherwise the sum of the file's
    bytes, each as an unsigned 8-bit value, modulo 2^32. *)
Theorem GetChecksum_spec (P : Process) (this : Library) (path : string) :
  GetPath P this = Ret path →
  (open_file P path = None → GetChecksum P this = Ret 0)
  ∧ (open_file P path = Some [] → GetChecksum P this = Ret 0)
  ∧ (∀ content, open_file P path = Some content →
       GetChecksum P this = Ret (byte_sum content mod 2 ^ 32)).
Proof.
  intros Hpath. unfold GetChecksum. rewrite Hpath. cbn [bind].
  repeat split.
  - by intros ->.
  - by intros ->.
  - intros content ->. by rewrite fold_checksum.
Qed.

(** ** Protection and release *)

(** C9. [Unprotect] leaves the call log as it is on an invalid module; on
    a valid one it makes exactly one call, asking for
    PAGE_EXECUTE_READWRITE on [SizeOfImage] bytes from the module base,
    and no call that would put a previous protection back. *)
Theorem Unprotect_spec (P : Process) (this : Library) (calls : list os_call) :
  (IsValid P this = Ret false → Unprotect P this calls = Ret calls)
  ∧ (IsValid P this = Ret true →
     ∀ header size,
       GetOptionalHeader P this = Ret header →
       load32 (mem P) (ptr_add header Layout.SizeOfImage) = Ret size →
       Unprotect P this calls
       = Ret (calls ++ [VirtualProtect (GetPtr this) size
                          Layout.PAGE_EXECUTE_READWRITE])).
Proof.
  unfold Unprotect. split.
  - by intros ->.
  - intros -> header size -> Hsize. cbn [bind negb]. by rewrite Hsize.
Qed.

(** C10. [Free] on a valid module releases the library once and nulls the
    handle: from then on, whatever the process memory holds, [IsValid] is
    false, every guarded query answers its sentinel, and a further [Free]
    releases nothing.  [Free] on an invalid module changes neither the
    object nor the call log. *)
Theorem Free_spec (P : Process) (this : Library) (calls : list os_call) :
  (IsValid P this = Ret true →
   ∃ freed,
     Free P this calls = Ret (freed, calls ++ [FreeLibrary (m_Module this)])
     ∧ m_Module freed = 0
     ∧ ∀ P' : Process,
         IsValid P' freed = Ret false
         ∧ GetNTHeaders P' freed = Ret 0
         ∧ GetOptionalHeader P' freed = Ret 0
         ∧ GetRelativeEntryPoint P' freed = Ret 0
         ∧ GetEntryPoint P' freed = Ret 0
         ∧ GetPath P' freed = Ret ""%string
         ∧ (∀ fuel moduleName procName,
              GetIATEntry fuel P' freed moduleName procName = Ret 0)
         ∧ (∀ calls', Unprotect P' freed calls' = Ret calls')
         ∧ (∀ calls', Free P' freed calls' = Ret (freed, calls')))
  ∧ (IsValid P this = Ret false → Free P this calls = Ret (this, calls)).
Proof.
  split.
  - intros Hv. exists {| m_Module := 0 |}. unfold Free at 1. rewrite Hv.
    repeat split; done.
  - intros Hv. unfold Free. by rewrite Hv.
Qed.

(** ** Invalid modules *)

Lemma load_le_unmapped (n : nat) (m : gmap Z byte) (a : Z) :
  m !! a = None → load_le (S n) m a = Fault.
Proof. intros H. cbn [load_le]. unfold load8. by rewrite H. Qed.

Lemma null_page_lookup (m : gmap Z byte) (a : Z) :
  null_page_unmapped m → a < 0x10000 → m !! a = None.
Proof.
  intros Hm Ha. destruct (m !! a) as [b|] eqn:Hb; [|done].
  apply Hm in Hb. simpl in Hb. lia.
Qed.

(** C2, on the code.  For a module with a null handle or a wrong magic,
    [GetNTHeaders], [GetOptionalHeader] and [GetIATEntry] answer null; but
    [GetSectionHeaders] and [GetTlsCallbacks] have no validity guard and
    dereference the null header pointer they are handed: with the null page
    unmapped, both fault instead of answering the empty sequence. *)
Theorem invalid_module_enumerations_fault (P : Process) (this : Library) :
  invalid_module P this →
  null_page_unmapped (mem P) →
  GetNTHeaders P this = Ret 0
  ∧ GetOptionalHeader P this = Ret 0
  ∧ (∀ fuel moduleName procName,
       GetIATEntry fuel P this moduleName procName = Ret 0)
  ∧ GetSectionHeaders P this = Fault
  ∧ (∀ fuel, GetTlsCallbacks fuel P this = Fault).
Proof.
  intros Hinv Hnull. apply invalid_module_IsValid in Hinv.
  repeat split.
  - by apply GetNTHeaders_invalid.
  - by apply GetOptionalHeader_invalid.
  - intros. by apply GetIATEntry_invalid.
  - unfold GetSectionHeaders. rewrite GetNTHeaders_invalid by done. cbn [bind].
    unfold load16. by rewrite load_le_unmapped by (by apply null_page_lookup).
  - intros fuel. unfold GetTlsCallbacks.
    rewrite GetOptionalHeader_invalid by done. cbn [bind].
    unfold load32. by rewrite load_le_unmapped by (by apply null_page_lookup).
Qed.

(** ** The synthetic process, run *)

Section fixture_runs.
Import Fixture.
Local Open Scope string_scope.

Lemma fixture_valid : IsValid P this = Ret true.
Proof. by vm_compute. Qed.

Lemma fixture_kernel32_valid : IsValid P (Library_named P "kernel32.dll") = Ret true.
Proof. by vm_compute. Qed.

Lemma fixture_null_page : null_page_unmapped (mem P).
Proof.
  unfold null_page_unmapped. apply (bool_decide_unpack _). by vm_compute.
Qed.

Lemma fixture_imports_at :
  imports_at P this "kernel32.dll" (B + 0x2000) kernel32_imports.
Proof.
  cbn [imports_at thunks_at kernel32_imports user32_view kernel32_first
       kernel32_second iv_Name iv_cmp iv_thunks iv_OriginalFirstThunk
       iv_FirstThunk AddressOfData Function].
  repeat split; intros; by vm_compute.
Qed.

Lemma fixture_imports_at_second :
  imports_at P this "kernel32.dll" (B + 0x2014) [kernel32_first; kernel32_second].
Proof.
  cbn [imports_at thunks_at kernel32_first kernel32_second iv_Name iv_cmp
       iv_thunks iv_OriginalFirstThunk iv_FirstThunk AddressOfData Function].
  repeat split; intros; by vm_compute.
Qed.

Lemma GetSectionHeaders_exactly_N_witness :
  IsValid P this = Ret true
  ∧ GetNTHeaders P this = Ret (B + 0x80)
  ∧ GetSectionHeaders P this = Ret [B + 0x188; B + 0x1B0; B + 0x1D8].
Proof.
  split; [by vm_compute|]. split; [by vm_compute|].
  apply (GetSectionHeaders_exactly_N P this (B + 0x80) 0xF0 3); by vm_compute.
Defined.

Lemma GetTlsCallbacks_spec_witness :
  callback_array (mem P) (B + 0x3100) [B + 0x1100; B + 0x1200]
  ∧ GetTlsCallbacks 3 P this = Ret [B + 0x1100; B + 0x1200]
  ∧ GetTlsCallbacks 0 P_no_tls this = Ret [].
Proof.
  assert (callback_array (mem P) (B + 0x3100) [B + 0x1100; B + 0x1200]) as Harr.
  { cbn [callback_array]. repeat split; by vm_compute. }
  split; [exact Harr|]. split.
  - apply (proj2 (GetTlsCallbacks_spec P this (B + 0x98) 0x3000
                    ltac:(by vm_compute) ltac:(by vm_compute))
             ltac:(done) (B + 0x3100));
      [by vm_compute|exact Harr|simpl; lia].
  - apply (proj1 (GetTlsCallbacks_spec P_no_tls this (B + 0x98) 0
                    ltac:(by vm_compute) ltac:(by vm_compute)) eq_refl).
Defined.

Lemma GetIATEntry_correct_witness :
  imports_at P this "kernel32.dll" (B + 0x2000) kernel32_imports
  ∧ GetIATEntry 6 P this "kernel32.dll" "Sleep" = Ret (B + 0x2330)
  ∧ GetIATEntry 6 P this "kernel32.dll" "VirtualAlloc" = Ret (B + 0x2338)
  ∧ GetIATEntry 6 P this "kernel32.dll" "GetTickCount" = Ret 0
  ∧ GetIATEntry 0 P this "kernel32.dll" "NoSuchExport" = Ret 0.
Proof.
  split; [exact fixture_imports_at|].
  assert (∀ procName,
            GetProc P (Library_named P "kernel32.dll") procName ≠ 0 →
            ∃ found,
              GetIATEntry 6 P this "kernel32.dll" procName = Ret (default 0 found)
              ∧ found = lookup_slot P this (Library_named P "kernel32.dll")
                          (GetProc P (Library_named P "kernel32.dll") procName)
                          kernel32_imports) as Hbound.
  { intros procName Hres.
    destruct (proj2 (GetIATEntry_correct P this "kernel32.dll" procName true
                       fixture_valid fixture_kernel32_valid)
                eq_refl Hres (B + 0x98) 0x2000 kernel32_imports 6%nat
                ltac:(by vm_compute) ltac:(by vm_compute) ltac:(by vm_compute)
                fixture_imports_at ltac:(by vm_compute))
      as (found & Hget & Hfound & _).
    by exists found. }
  split; [|split; [|split]].
  - destruct (Hbound "Sleep" ltac:(by vm_compute)) as (found & -> & ->).
    by vm_compute.
  - destruct (Hbound "VirtualAlloc" ltac:(by vm_compute)) as (found & -> & ->).
    by vm_compute.
  - destruct (Hbound "GetTickCount" ltac:(by vm_compute)) as (found & -> & ->).
    by vm_compute.
  - apply (proj1 (GetIATEntry_correct P this "kernel32.dll" "NoSuchExport" true
                    fixture_valid fixture_kernel32_valid)).
    right. by vm_compute.
Defined.

Lemma descriptor_scan_continues_witness :
  let scan fuel from :=
    descriptor_loop fuel P this (Library_named P "kernel32.dll") "kernel32.dll"
      (K + 0x3000) from in
  imports_at P this "kernel32.dll" (B + 0x2014) [kernel32_first; kernel32_second]
  ∧ name_matches kernel32_first = true
  ∧ scan 5%nat (B + 0x2014) = scan 4%nat (B + 0x2028)
  ∧ scan 4%nat (B + 0x2028) = Ret (B + 0x2330).
Proof.
  intros scan. pose proof fixture_imports_at_second as Hat.
  split; [exact Hat|]. split; [done|]. split.
  - apply (proj1 (descriptor_scan_continues P this (Library_named P "kernel32.dll")
                    "kernel32.dll" (K + 0x3000) (B + 0x2014)
                    kernel32_first [kernel32_second] 5%nat
                    Hat ltac:(by vm_compute)));
      by vm_compute.
  - pose proof Hat as (_ & _ & _ & _ & Hat').
    apply (proj1 (proj2 (proj2
             (descriptor_scan_continues P this (Library_named P "kernel32.dll")
                "kernel32.dll" (K + 0x3000)
                (ptr_add (B + 0x2014) Layout.sizeof_IMAGE_IMPORT_DESCRIPTOR)
                kernel32_second [] 4%nat
                Hat' ltac:(by vm_compute))))); by vm_compute.
Defined.

Lemma ordinal_fallback_witness :
  let kernel32 := Library_named P "kernel32.dll" in
  let VirtualAlloc := K + 0x4000 in
  load64 (mem P) (B + 0x2138) = Ret 0x8000000000000005
  ∧ load64 (mem P) (B + 0x2338) = Ret 0x150000000
  ∧ GetProcAddressOrdinal P K 5 = VirtualAlloc
  ∧ thunk_loop 1 P kernel32 VirtualAlloc (B + 0x2138) (B + 0x2338)
    = Ret (Some (B + 0x2338))
  ∧ thunk_loop 3 P kernel32 VirtualAlloc (B + 0x2130) (B + 0x2330)
    = Ret (Some (B + 0x2338)).
Proof.
  intros kernel32 VirtualAlloc.
  pose (p := {| AddressOfData := 0x8000000000000005; Function := 0x150000000 |}).
  pose proof (ordinal_fallback P kernel32 VirtualAlloc (B + 0x2138) (B + 0x2338) p
                ltac:(by vm_compute) ltac:(by vm_compute) ltac:(by vm_compute)
                ltac:(by vm_compute)) as (Hhit & _ & Hfound).
  assert (Z.land (AddressOfData p) 0xFFFFFFF ≤ 0xFFFF
          ∧ GetProcAddressOrdinal P (m_Module kernel32)
              (Z.land (AddressOfData p) 0xFFFFFFF) = VirtualAlloc) as Hres
    by (split; by vm_compute).
  split; [by vm_compute|]. split; [by vm_compute|]. split; [by vm_compute|].
  split.
  - exact (Hhit Hres 0%nat).
  - apply (Hfound Hres (B + 0x2130) (B + 0x2330)
             [ {| AddressOfData := 0x12430; Function := K + 0x3000 |}; p ] 1%nat 3%nat).
    + cbn [thunks_at AddressOfData Function p]. repeat split; by vm_compute.
    + by vm_compute.
    + done.
    + intros [|j] q Hj Hq; [|lia]. injection Hq as <-. by vm_compute.
    + simpl. lia.
Defined.

Lemma GetChecksum_spec_witness :
  GetPath P this = Ret "C:\game\game.exe"
  ∧ open_file P "C:\game\game.exe" = Some [x01; x02; x03; xff]
  ∧ GetChecksum P this = Ret 261.
Proof.
  split; [by vm_compute|]. split; [by vm_compute|].
  apply (proj2 (proj2 (GetChecksum_spec P this "C:\game\game.exe"
                         ltac:(by vm_compute))) [x01; x02; x03; xff]).
  by vm_compute.
Defined.

Lemma invalid_module_enumerations_fault_witness :
  invalid_module P unloaded
  ∧ null_page_unmapped (mem P)
  ∧ GetSectionHeaders P unloaded = Fault
  ∧ GetTlsCallbacks 8 P unloaded = Fault.
Proof.
  assert (invalid_module P unloaded) as Hinv by (by left).
  split; [exact Hinv|]. split; [exact fixture_null_page|].
  destruct (invalid_module_enumerations_fault P unloaded Hinv fixture_null_page)
    as (_ & _ & _ & Hsections & Htls).
  split; [exact Hsections|exact (Htls 8%nat)].
Defined.

Lemma ends_scan_iff_Name_zero_witness :
  all_zero P (B + 0x203C) ∧ ends_scan P (B + 0x203C).
Proof.
  assert (all_zero P (B + 0x203C)) as Hzero.
  { unfold all_zero. repeat split; by vm_compute. }
  split; [exact Hzero|].
  exact (proj2 (ends_scan_iff_Name_zero P (B + 0x203C)) Hzero).
Defined.

(** C4, as the spec has it, fails: in [P_cut] the second descriptor still
    has its thunk tables but a zero [Name].  The loop ends there although
    the descriptor is not all-zero, and the slot for [Sleep] in the
    descriptor after it is never reached. *)
Lemma terminator_not_all_zero :
  ends_scan P_cut (B + 0x2014)
  ∧ ¬ all_zero P_cut (B + 0x2014)
  ∧ GetIATEntry 6 P_cut this "kernel32.dll" "Sleep" = Ret 0
  ∧ descriptor_loop 4 P_cut this (Library_named P_cut "kernel32.dll")
      "kernel32.dll" (K + 0x3000) (B + 0x2028) = Ret (B + 0x2330).
Proof.
  split; [|split; [|split]].
  - apply Name_zero_ends_scan. by vm_compute.
  - intros (Hoft & _). vm_compute in Hoft. discriminate.
  - by vm_compute.
  - by vm_compute.
Qed.

Lemma Unprotect_spec_witness :
  Unprotect P this [] = Ret [VirtualProtect B 0x5000 0x40]
  ∧ Unprotect P unloaded [] = Ret [].
Proof.
  split.
  - apply (proj2 (Unprotect_spec P this []) fixture_valid (B + 0x98) 0x5000);
      by vm_compute.
  - apply (proj1 (Unprotect_spec P unloaded [])). by vm_compute.
Defined.

Lemma Free_spec_witness :
  (∃ freed, Free P this [] = Ret (freed, [FreeLibrary B])
            ∧ Free P freed [FreeLibrary B] = Ret (freed, [FreeLibrary B])
            ∧ IsValid P freed = Ret false)
  ∧ Free P unloaded [] = Ret (unloaded, []).
Proof.
  split.
  - destruct (proj1 (Free_spec P this []) fixture_valid)
      as (freed & Hfree & _ & Hafter).
    exists freed. split; [exact Hfree|].
    destruct (Hafter P) as (Hv & _ & _ & _ & _ & _ & _ & _ & Hagain).
    split; [apply Hagain|exact Hv].
  - apply (proj2 (Free_spec P unloaded [])). by vm_compute.
Defined.

End fixture_runs.

(** * Further properties of the module view *)

(** ** The requested module name only counts up to case *)

Lemma stricmp_case_fold (m : gmap Z byte) (s1 : string) :
  ∀ (s2 : string) (a : Z),
    tolower <$> string_codes s1 = tolower <$> string_codes s2 →
    stricmp m a s1 = stricmp m a s2.
Proof.
  induction s1 as [|c1 s1 IH]; intros [|c2 s2] a H; try done.
  cbn [string_codes fmap list_fmap] in H. injection H as Hhead Htail.
  cbn [stricmp char_code]. rewrite Hhead.
  destruct (load8 m a) as [c| |]; [|done..]. cbn [bind].
  destruct (negb _); [done|]. destruct (c =? 0); [done|].
  by apply IH.
Qed.

Lemma descriptor_loop_case_fold (P : Process) (this otherModule : Library)
    (s1 s2 : string) (targetFunction : Z) :
  tolower <$> string_codes s1 = tolower <$> string_codes s2 →
  ∀ (fuel : nat) (desc : Z),
    descriptor_loop fuel P this otherModule s1 targetFunction desc
    = descriptor_loop fuel P this otherModule s2 targetFunction desc.
Proof.
  intros H fuel. induction fuel as [|fuel IH]; intros desc; [done|].
  cbn [descriptor_loop].
  destruct (load32 (mem P) (ptr_add desc Layout.Name)) as [n| |]; [|done..].
  cbn [bind]. destruct (n =? 0); [done|].
  rewrite (stricmp_case_fold _ s1 s2 _ H).
  destruct (stricmp _ _ s2) as [c| |]; [|done..]. cbn [bind].
  destruct (c =? 0); [|apply IH].
  destruct (load32 _ (ptr_add desc Layout.OriginalFirstThunk)) as [oft| |]; [|done..].
  cbn [bind].
  destruct (load32 _ (ptr_add desc Layout.FirstThunk)) as [ft| |]; [|done..].
  cbn [bind].
  destruct (thunk_loop _ _ _ _ _ _) as [[slot|]| |]; cbn [bind]; [done| |done..].
  apply IH.
Qed.

(** X1. Two spellings of a module name that differ only in the case of
    ASCII letters, and that the loader maps to the same handle, get the
    same answer from [GetIATEntry], whatever the image holds. *)
Theorem GetIATEntry_case_insensitive (P : Process) (this : Library)
    (s1 s2 procName : string) (fuel : nat) :
  tolower <$> string_codes s1 = tolower <$> string_codes s2 →
  GetModuleHandleA P s1 = GetModuleHandleA P s2 →
  GetIATEntry fuel P this s1 procName = GetIATEntry fuel P this s2 procName.
Proof.
  intros Hfold Hhandle. unfold GetIATEntry, Library_named. rewrite Hhandle.
  destruct (IsValid P this) as [v| |]; [|done..]. cbn [bind].
  destruct (negb v); [done|].
  destruct (IsValid P _) as [ov| |]; [|done..]. cbn [bind].
  destruct (negb ov); [done|].
  destruct (_ =? 0); [done|].
  destruct (GetOptionalHeader P this) as [header| |]; [|done..]. cbn [bind].
  destruct (header =? 0); [done|].
  destruct (load32 _ _) as [va| |]; [|done..]. cbn [bind].
  by apply descriptor_loop_case_fold.
Qed.

(** X2. A descriptor whose module name, a C string in the image, differs
    from the requested name even when case is ignored is passed over: the
    scan goes on with the next descriptor, and neither its thunk RVAs nor
    its thunk tables are read (they need not be mapped). *)
Theorem descriptor_skipped_when_name_differs (P : Process) (this otherModule : Library)
    (moduleName : string) (targetFunction : Z) (desc Name : Z) (cs : list Z)
    (fuel : nat) :
  load32 (mem P) (ptr_add desc Layout.Name) = Ret Name →
  Name ≠ 0 →
  cstring_at (mem P) (ptr_add (GetPtr this) Name) cs →
  Forall (λ c, c ≠ 0) (string_codes moduleName) →
  tolower <$> cs ≠ tolower <$> string_codes moduleName →
  descriptor_loop (S fuel) P this otherModule moduleName targetFunction desc
  = descriptor_loop fuel P this otherModule moduleName targetFunction
      (ptr_add desc Layout.sizeof_IMAGE_IMPORT_DESCRIPTOR).
Proof.
  intros HName Hnz Hcs Hs Hdiff. cbn [descriptor_loop]. rewrite HName. cbn [bind].
  destruct (Z.eqb_spec Name 0) as [?|_]; [done|].
  destruct (stricmp_zero_iff _ _ _ _ Hcs Hs) as (d & -> & Hd). cbn [bind].
  destruct (Z.eqb_spec d 0) as [Hz|_]; [|done].
  by apply Hd in Hz.
Qed.

(** ** What a non-null answer of the lookup guarantees *)

Lemma bind_finished {A B : Type} (r : result A) (k : A → result B) :
  bind r k ≠ OutOfFuel → r ≠ OutOfFuel.
Proof. by destruct r. Qed.

Lemma thunk_loop_sound (P : Process) (otherModule : Library) (targetFunction : Z)
    (fuel : nat) :
  ∀ (o t slot : Z),
    0 ≤ o < 2 ^ 64 → 0 ≤ t < 2 ^ 64 →
    thunk_loop fuel P otherModule targetFunction o t = Ret (Some slot) →
    ∃ (i : nat) (pair : thunk_pair),
      slot = ptr_add t (Layout.sizeof_IMAGE_THUNK_DATA * Z.of_nat i)
      ∧ load64 (mem P) (ptr_add o (Layout.sizeof_IMAGE_THUNK_DATA * Z.of_nat i))
        = Ret (AddressOfData pair)
      ∧ AddressOfData pair ≠ 0
      ∧ load64 (mem P) slot = Ret (Function pair)
      ∧ slot_matches P otherModule targetFunction pair = true.
Proof.
  induction fuel as [|fuel IH]; intros o t slot Hor Htr H; [done|].
  cbn [thunk_loop] in H.
  apply bind_Ret_inv in H as (ov & Ho & H).
  destruct (Z.eqb_spec ov 0) as [?|Hov]; [done|].
  apply bind_Ret_inv in H as (v & Ht & H).
  pose (pair := {| AddressOfData := ov; Function := v |}).
  assert (slot_matches P otherModule targetFunction pair = true →
          t = slot →
          ∃ (i : nat) (pair : thunk_pair),
            slot = ptr_add t (Layout.sizeof_IMAGE_THUNK_DATA * Z.of_nat i)
            ∧ load64 (mem P) (ptr_add o (Layout.sizeof_IMAGE_THUNK_DATA * Z.of_nat i))
              = Ret (AddressOfData pair)
            ∧ AddressOfData pair ≠ 0
            ∧ load64 (mem P) slot = Ret (Function pair)
            ∧ slot_matches P otherModule targetFunction pair = true) as Hhere.
  { intros Hm <-. exists 0%nat, pair.
    rewrite Z.mul_0_r, !ptr_add_0 by done. done. }
  assert (thunk_loop fuel P otherModule targetFunction
            (ptr_add o Layout.sizeof_IMAGE_THUNK_DATA)
            (ptr_add t Layout.sizeof_IMAGE_THUNK_DATA) = Ret (Some slot) →
          ∃ (i : nat) (pair : thunk_pair),
            slot = ptr_add t (Layout.sizeof_IMAGE_THUNK_DATA * Z.of_nat i)
            ∧ load64 (mem P) (ptr_add o (Layout.sizeof_IMAGE_THUNK_DATA * Z.of_nat i))
              = Ret (AddressOfData pair)
            ∧ AddressOfData pair ≠ 0
            ∧ load64 (mem P) slot = Ret (Function pair)
            ∧ slot_matches P otherModule targetFunction pair = true) as Hnext.
  { intros Hrec.
    apply IH in Hrec as (i & q & -> & Hq1 & Hq2 & Hq3 & Hq4);
      [|apply ptr_add_range..].
    rewrite ptr_add_assoc in Hq1, Hq3.
    exists (S i), q.
    replace (Layout.sizeof_IMAGE_THUNK_DATA * Z.of_nat (S i))
      with (Layout.sizeof_IMAGE_THUNK_DATA + Layout.sizeof_IMAGE_THUNK_DATA * Z.of_nat i)
      by lia.
    by rewrite ptr_add_assoc. }
  unfold slot_matches, by_address, by_ordinal in Hhere.
  cbn [pair AddressOfData Function] in Hhere.
  destruct (v =? targetFunction); [injection H as Heq; by apply Hhere|].
  destruct (Z.land ov ordinal_mask <=? ordinal_max); [|by apply Hnext].
  destruct (GetProcAddressOrdinal P _ _ =? targetFunction);
    [injection H as Heq; by apply Hhere|by apply Hnext].
Qed.

Lemma descriptor_loop_sound (P : Process) (this otherModule : Library)
    (moduleName : string) (targetFunction : Z) (fuel : nat) :
  ∀ (desc slot : Z),
    0 ≤ desc < 2 ^ 64 →
    descriptor_loop fuel P this otherModule moduleName targetFunction desc = Ret slot →
    slot ≠ 0 →
    slot_in_image P this otherModule moduleName targetFunction desc slot.
Proof.
  induction fuel as [|fuel IH]; intros desc slot Hdr H Hnz; [done|].
  cbn [descriptor_loop] in H.
  assert (descriptor_loop fuel P this otherModule moduleName targetFunction
            (ptr_add desc Layout.sizeof_IMAGE_IMPORT_DESCRIPTOR) = Ret slot →
          slot_in_image P this otherModule moduleName targetFunction desc slot)
    as Hnext.
  { intros Hrec. apply IH in Hrec as (k & i & Hk); [|apply ptr_add_range|done].
    exists (S k), i.
    replace (Layout.sizeof_IMAGE_IMPORT_DESCRIPTOR * Z.of_nat (S k))
      with (Layout.sizeof_IMAGE_IMPORT_DESCRIPTOR
            + Layout.sizeof_IMAGE_IMPORT_DESCRIPTOR * Z.of_nat k) by lia.
    by rewrite <- ptr_add_assoc. }
  apply bind_Ret_inv in H as (n & HName & H).
  destruct (Z.eqb_spec n 0) as [?|Hn]; [injection H as <-; done|].
  apply bind_Ret_inv in H as (c & Hcmp & H).
  destruct (Z.eqb_spec c 0) as [->|_]; [|by apply Hnext].
  apply bind_Ret_inv in H as (oft & Hoft & H).
  apply bind_Ret_inv in H as (ft & Hft & H).
  apply bind_Ret_inv in H as ([found|] & Hthunks & H); [|by apply Hnext].
  injection H as <-.
  apply thunk_loop_sound in Hthunks as (i & pair & -> & Hp1 & Hp2 & Hp3 & Hp4);
    [|apply ptr_add_range..].
  exists 0%nat, i, n, oft, ft, pair. cbn zeta.
  rewrite Z.mul_0_r, ptr_add_0 by done. done.
Qed.


(** ** The step budget does not show in the answers *)

Lemma tls_loop_mono (m : gmap Z byte) (fuel : nat) :
  ∀ (fuel' : nat) (current : Z) (callbacks : list Z),
    tls_loop fuel m current callbacks ≠ OutOfFuel → (fuel ≤ fuel')%nat →
    tls_loop fuel' m current callbacks = tls_loop fuel m current callbacks.
Proof.
  induction fuel as [|fuel IH]; intros fuel' current callbacks H Hle; [done|].
  destruct fuel' as [|fuel']; [lia|]. cbn [tls_loop] in *.
  destruct (load64 m current) as [cb| |]; [|done..]. cbn [bind] in *.
  destruct (cb =? 0); [done|]. apply IH; [done|lia].
Qed.

Lemma thunk_loop_mono (P : Process) (otherModule : Library) (targetFunction : Z)
    (fuel : nat) :
  ∀ (fuel' : nat) (o t : Z),
    thunk_loop fuel P otherModule targetFunction o t ≠ OutOfFuel →
    (fuel ≤ fuel')%nat →
    thunk_loop fuel' P otherModule targetFunction o t
    = thunk_loop fuel P otherModule targetFunction o t.
Proof.
  induction fuel as [|fuel IH]; intros fuel' o t H Hle; [done|].
  destruct fuel' as [|fuel']; [lia|]. cbn [thunk_loop] in *.
  destruct (load64 (mem P) o) as [ov| |]; [|done..]. cbn [bind] in *.
  destruct (ov =? 0); [done|].
  destruct (load64 (mem P) t) as [v| |]; [|done..]. cbn [bind] in *.
  destruct (v =? targetFunction); [done|].
  destruct (Z.land ov ordinal_mask <=? ordinal_max); [|apply IH; [done|lia]].
  destruct (GetProcAddressOrdinal P _ _ =? targetFunction); [done|].
  apply IH; [done|lia].
Qed.

Lemma descriptor_loop_mono (P : Process) (this otherModule : Library)
    (moduleName : string) (targetFunction : Z) (fuel : nat) :
  ∀ (fuel' : nat) (desc : Z),
    descriptor_loop fuel P this otherModule moduleName targetFunction desc
      ≠ OutOfFuel →
    (fuel ≤ fuel')%nat →
    descriptor_loop fuel' P this otherModule moduleName targetFunction desc
    = descriptor_loop fuel P this otherModule moduleName targetFunction desc.
Proof.
  induction fuel as [|fuel IH]; intros fuel' desc H Hle; [done|].
  destruct fuel' as [|fuel']; [lia|]. cbn [descriptor_loop] in *.
  destruct (load32 (mem P) (ptr_add desc Layout.Name)) as [n| |]; [|done..].
  cbn [bind] in *. destruct (n =? 0); [done|].
  destruct (stricmp _ _ _) as [c| |]; [|done..]. cbn [bind] in *.
  destruct (c =? 0); [|apply IH; [done|lia]].
  destruct (load32 _ (ptr_add desc Layout.OriginalFirstThunk)) as [oft| |]; [|done..].
  cbn [bind] in *.
  destruct (load32 _ (ptr_add desc Layout.FirstThunk)) as [ft| |]; [|done..].
  cbn [bind] in *.
  rewrite (thunk_loop_mono _ _ _ fuel fuel');
    [|by apply bind_finished in H|lia].
  destruct (thunk_loop fuel _ _ _ _ _) as [[slot|]| |]; cbn [bind] in *; [done| |done..].
  apply IH; [done|lia].
Qed.


(** ** TLS callbacks: what an answer says about the image *)

Lemma tls_loop_sound (m : gmap Z byte) (fuel : nat) :
  ∀ (current : Z) (callbacks result : list Z),
    tls_loop fuel m current callbacks = Ret result →
    ∃ ptrs, result = callbacks ++ ptrs
            ∧ callback_array m current ptrs
            ∧ (length ptrs < fuel)%nat.
Proof.
  induction fuel as [|fuel IH]; intros current callbacks result H; [done|].
  cbn [tls_loop] in H. apply bind_Ret_inv in H as (cb & Hcb & H).
  destruct (Z.eqb_spec cb 0) as [->|Hnz].
  - injection H as <-. exists []. rewrite app_nil_r. repeat split; [done|simpl; lia].
  - apply IH in H as (ptrs & -> & Harr & Hlen). exists (cb :: ptrs).
    rewrite <- app_assoc. repeat split; [done..|simpl; lia].
Qed.

Lemma callback_array_nonnull (m : gmap Z byte) (ptrs : list Z) :
  ∀ a, callback_array m a ptrs → Forall (λ p, p ≠ 0) ptrs.
Proof.
  induction ptrs as [|p rest IH]; intros a H; [constructor|].
  destruct H as (Hp & _ & Hrest). constructor; [done|by apply (IH _ Hrest)].
Qed.

(** X5. Whenever [GetTlsCallbacks] answers a sequence for an image with a
    TLS directory, that sequence is what the callback array holds: each
    entry was read from the array in order, none is null, and the slot
    after the last one reads null. *)
Theorem GetTlsCallbacks_sound (fuel : nat) (P : Process) (this : Library)
    (header va array : Z) (ptrs : list Z) :
  GetOptionalHeader P this = Ret header →
  load32 (mem P) (data_directory_va header Layout.IMAGE_DIRECTORY_ENTRY_TLS) = Ret va →
  va ≠ 0 →
  load64 (mem P)
    (ptr_add (ptr_add (GetPtr this) va) Layout.AddressOfCallBacks) = Ret array →
  GetTlsCallbacks fuel P this = Ret ptrs →
  callback_array (mem P) array ptrs
  ∧ Forall (λ p, p ≠ 0) ptrs
  ∧ (length ptrs < fuel)%nat.
Proof.
  intros Hh Hva Hnz Harr H. unfold GetTlsCallbacks in H.
  rewrite Hh in H. cbn [bind] in H. rewrite Hva in H. cbn [bind] in H.
  destruct (Z.eqb_spec va 0) as [?|_]; [done|].
  rewrite Harr in H. cbn [bind] in H.
  apply tls_loop_sound in H as (ptrs' & -> & Hptrs & Hlen). cbn [app].
  split; [done|]. split; [by apply (callback_array_nonnull (mem P) _ array)|done].
Qed.

(** ** Section table: bounds that hold for every image *)

Lemma section_loop_bounded (count : nat) :
  ∀ section, 0 ≤ section < 2 ^ 64 →
    (length (section_loop count section) ≤ count)%nat
    ∧ Forall (λ s, 0 < s < 2 ^ 64) (section_loop count section).
Proof.
  induction count as [|k IH]; intros section Hrange; cbn [section_loop].
  - split; [done|constructor].
  - destruct (IH (ptr_add section Layout.sizeof_IMAGE_SECTION_HEADER)
                (ptr_add_range _ _)) as (Hlen & Hall).
    destruct (Z.eqb_spec section 0) as [->|Hnz]; cbn [app length].
    + split; [lia|done].
    + split; [lia|]. constructor; [lia|done].
Qed.

(** X6. Whatever the image holds: a sequence answered by
    [GetSectionHeaders] has at most as many entries as the section count
    the file header gives, hence at most 65535, and none of them is null. *)
Theorem GetSectionHeaders_bounded (P : Process) (this : Library)
    (nt n : Z) (headers : list Z) :
  GetNTHeaders P this = Ret nt →
  load16 (mem P) (ptr_add nt Layout.FileHeader_NumberOfSections) = Ret n →
  GetSectionHeaders P this = Ret headers →
  Z.of_nat (length headers) ≤ n
  ∧ n ≤ 65535
  ∧ Forall (λ s, 0 < s < 2 ^ 64) headers.
Proof.
  intros Hnt Hn H. unfold GetSectionHeaders in H. rewrite Hnt in H. cbn [bind] in H.
  apply bind_Ret_inv in H as (optsize & _ & H). rewrite Hn in H. cbn [bind] in H.
  injection H as <-.
  destruct (section_loop_bounded (Z.to_nat n)
              (ptr_add (ptr_add nt Layout.OptionalHeader) optsize)
              (ptr_add_range _ _)) as (Hlen & Hall).
  apply load16_range in Hn. split; [lia|]. split; [lia|done].
Qed.

(** ** Checksum: what the byte sum can and cannot tell apart *)

Lemma byte_sum_app (a b : list byte) :
  byte_sum (a ++ b) = byte_sum a + byte_sum b.
Proof.
  induction a as [|x a IH]; cbn [app byte_sum foldr]; [done|].
  fold (byte_sum (a ++ b)). fold (byte_sum a). lia.
Qed.

Lemma byte_sum_perm (a b : list byte) : a ≡ₚ b → byte_sum a = byte_sum b.
Proof.
  induction 1 as [|x a b _ IH|x y a|a b c _ IHab _ IHbc];
    cbn [byte_sum foldr]; [done| | |congruence].
  - fold (byte_sum a). fold (byte_sum b). lia.
  - lia.
Qed.

Lemma byte_sum_bounds (content : list byte) :
  0 ≤ byte_sum content ≤ 255 * Z.of_nat (length content).
Proof.
  induction content as [|b rest IH]; cbn [byte_sum foldr length]; [lia|].
  fold (byte_sum rest). pose proof (byte_val_range b). lia.
Qed.

Lemma GetChecksum_of_content (P : Process) (this : Library) (path : string)
    (content : list byte) :
  GetPath P this = Ret path → open_file P path = Some content →
  GetChecksum P this = Ret (byte_sum content mod 2 ^ 32).
Proof.
  intros Hpath Hopen. unfold GetChecksum. rewrite Hpath. cbn [bind].
  rewrite Hopen. by rewrite fold_checksum.
Qed.

(** X7. [GetChecksum] does not see the order of the bytes: two module
    files holding the same bytes in different orders have the same
    checksum. *)
Theorem GetChecksum_permutation (P P' : Process) (this this' : Library)
    (path path' : string) (content content' : list byte) :
  GetPath P this = Ret path → open_file P path = Some content →
  GetPath P' this' = Ret path' → open_file P' path' = Some content' →
  content ≡ₚ content' →
  GetChecksum P this = GetChecksum P' this'.
Proof.
  intros Hp Ho Hp' Ho' Hperm.
  rewrite (GetChecksum_of_content _ _ _ _ Hp Ho),
          (GetChecksum_of_content _ _ _ _ Hp' Ho').
  by rewrite (byte_sum_perm _ _ Hperm).
Qed.

(** X8. The checksum of a file that is the concatenation of two files is
    the sum of their checksums, wrapped to 32 bits. *)
Theorem GetChecksum_app (P : Process) (this_a this_b this_ab : Library)
    (path_a path_b path_ab : string) (a b : list byte) (sum_a sum_b : Z) :
  GetPath P this_a = Ret path_a → open_file P path_a = Some a →
  GetPath P this_b = Ret path_b → open_file P path_b = Some b →
  GetPath P this_ab = Ret path_ab → open_file P path_ab = Some (a ++ b) →
  GetChecksum P this_a = Ret sum_a →
  GetChecksum P this_b = Ret sum_b →
  GetChecksum P this_ab = Ret (wrap32 (sum_a + sum_b)).
Proof.
  intros Hpa Hoa Hpb Hob Hpab Hoab Ha Hb.
  rewrite (GetChecksum_of_content _ _ _ _ Hpa Hoa) in Ha. injection Ha as <-.
  rewrite (GetChecksum_of_content _ _ _ _ Hpb Hob) in Hb. injection Hb as <-.
  rewrite (GetChecksum_of_content _ _ _ _ Hpab Hoab). f_equal.
  rewrite byte_sum_app. unfold wrap32, wrap.
  by rewrite <- Z.add_mod by discriminate.
Qed.

(** X9. The checksum always fits 32 bits, and for a file of at most
    16843009 bytes (255 times that is 2^32 - 1) nothing wraps: the checksum
    is the plain sum of the bytes. *)
Theorem GetChecksum_range (P : Process) (this : Library) (path : string)
    (content : list byte) :
  GetPath P this = Ret path → open_file P path = Some content →
  ∃ sum, GetChecksum P this = Ret sum
         ∧ 0 ≤ sum < 2 ^ 32
         ∧ (Z.of_nat (length content) ≤ 16843009 → sum = byte_sum content).
Proof.
  intros Hp Ho. exists (byte_sum content mod 2 ^ 32).
  split; [by apply (GetChecksum_of_content _ _ path)|].
  split; [by apply Z.mod_pos_bound|].
  intros Hlen. pose proof (byte_sum_bounds content).
  apply Z.mod_small. lia.
Qed.

(** ** Entry point *)


(** ** File name *)

Lemma find_last_of_None (s : string) (chars : ascii → bool) :
  find_last_of s chars = None →
  Forall (λ c, chars c = false) (list_ascii_of_string s).
Proof.
  induction s as [|a rest IH]; cbn [find_last_of list_ascii_of_string];
    [constructor|].
  destruct (find_last_of rest chars); [done|].
  destruct (chars a) eqn:Ha; [done|]. intros _. constructor; [done|by apply IH].
Qed.

Lemma find_last_of_Some (s : string) (chars : ascii → bool) :
  ∀ pos, find_last_of s chars = Some pos →
    ∃ (dir : string) (c : ascii) (name : string),
      s = (dir ++ String c name)%string
      ∧ chars c = true
      ∧ Forall (λ x, chars x = false) (list_ascii_of_string name)
      ∧ substr (pos + 1) s = Some name.
Proof.
  induction s as [|a rest IH]; intros pos H; [done|].
  cbn [find_last_of] in H.
  destruct (find_last_of rest chars) as [p|] eqn:Hrest.
  - injection H as <-.
    destruct (IH p eq_refl) as (dir & c & name & -> & Hc & Hname & Hsub).
    exists (String a dir), c, name. by repeat split.
  - destruct (chars a) eqn:Ha; [|done]. injection H as <-.
    exists EmptyString, a, rest.
    split; [done|]. split; [done|]. split; [by apply find_last_of_None|done].
Qed.

(** X11. On a valid module [GetName] throws nothing and answers the part
    of the module path after its last slash or backslash: the answer holds
    no separator, and the path is either the answer itself or some
    directory part, one separator, and the answer.  On an invalid module it
    answers the empty string. *)
Theorem GetName_spec (P : Process) (this : Library) :
  (IsValid P this = Ret true →
   let path := GetModuleFileNameA P (m_Module this) in
   ∃ name,
     GetName P this = Ret (Some name)
     ∧ Forall (λ c, is_path_separator c = false) (list_ascii_of_string name)
     ∧ (path = name
        ∨ ∃ dir c, is_path_separator c = true
                   ∧ path = (dir ++ String c name)%string))
  ∧ (IsValid P this = Ret false → GetName P this = Ret (Some ""%string)).
Proof.
  split.
  - intros Hv path. unfold GetName, GetPath. rewrite Hv. cbn [bind negb].
    fold path.
    destruct (find_last_of path is_path_separator) as [pos|] eqn:Hfind.
    + apply find_last_of_Some in Hfind as (dir & c & name & Hpath & Hc & Hname & Hsub).
      exists name. rewrite Hsub. split; [done|]. split; [done|].
      right. by exists dir, c.
    + exists path. split; [done|]. split; [by apply find_last_of_None|by left].
  - intros Hv. unfold GetName. by rewrite Hv.
Qed.

(** ** A module the image does not import by name *)

Lemma descriptor_loop_no_name (P : Process) (this otherModule : Library)
    (moduleName : string) (targetFunction : Z) (ds : list import_view) :
  ∀ (desc : Z) (fuel : nat),
    imports_at P this moduleName desc ds →
    Forall (λ d, name_matches d = false) ds →
    (length ds < fuel)%nat →
    descriptor_loop fuel P this otherModule moduleName targetFunction desc = Ret 0.
Proof.
  induction ds as [|d rest IH]; intros desc fuel Hat Hall Hfuel;
    (destruct fuel as [|fuel]; [simpl in Hfuel; lia|]); cbn [descriptor_loop].
  - simpl in Hat. by rewrite Hat.
  - destruct Hat as (Hnz & HName & Hcmp & _ & Hrest).
    apply Forall_cons in Hall as (Hd & Hall).
    rewrite HName. cbn [bind].
    destruct (Z.eqb_spec (iv_Name d) 0) as [?|_]; [done|].
    rewrite Hcmp. cbn [bind]. unfold name_matches in Hd. rewrite Hd.
    apply IH; [done..|]. simpl in Hfuel. lia.
Qed.

(** X12. When no descriptor of the import array carries the requested
    module name, [GetIATEntry] answers null, reading no thunk table — also
    when a slot imported under another module name holds the resolved
    address. *)
Theorem GetIATEntry_module_not_imported (fuel : nat) (P : Process) (this : Library)
    (moduleName procName : string) (ov : bool) (header va : Z)
    (ds : list import_view) :
  IsValid P this = Ret true →
  IsValid P (Library_named P moduleName) = Ret ov →
  GetOptionalHeader P this = Ret header →
  load32 (mem P)
    (data_directory_va header Layout.IMAGE_DIRECTORY_ENTRY_IMPORT) = Ret va →
  imports_at P this moduleName (ptr_add (GetPtr this) va) ds →
  Forall (λ d, name_matches d = false) ds →
  (length ds < fuel)%nat →
  GetIATEntry fuel P this moduleName procName = Ret 0.
Proof.
  intros Hv Hov Hh Hva Hat Hall Hfuel. unfold GetIATEntry.
  rewrite Hv. cbn [bind negb]. rewrite Hov. cbn [bind].
  destruct (negb ov); [done|]. destruct (_ =? 0); [done|].
  rewrite Hh. cbn [bind]. destruct (header =? 0); [done|].
  rewrite Hva. cbn [bind]. by apply (descriptor_loop_no_name _ _ _ _ _ ds).
Qed.

(** ** The offset to the NT headers is signed *)

(** X13. On a valid module [GetNTHeaders] applies the stored [e_lfanew] as
    a signed 32-bit offset and checks it against nothing: a stored value
    below 2^31 puts the NT headers that many bytes above the base, a stored
    value from 2^31 on puts them 2^32 minus that value bytes below it. *)
Theorem GetNTHeaders_signed_offset (P : Process) (this : Library) (lfanew : Z) :
  IsValid P this = Ret true →
  load32 (mem P) (ptr_add (GetDOSHeader this) Layout.e_lfanew) = Ret lfanew →
  (lfanew < 2 ^ 31 → 0 ≤ GetPtr this → GetPtr this + lfanew < 2 ^ 64 →
   GetNTHeaders P this = Ret (GetPtr this + lfanew))
  ∧ (2 ^ 31 ≤ lfanew → 2 ^ 32 - lfanew ≤ GetPtr this < 2 ^ 64 →
     GetNTHeaders P this = Ret (GetPtr this - (2 ^ 32 - lfanew))).
Proof.
  intros Hv Hload. pose proof (load_le_range _ _ _ _ Hload) as Hrange.
  change (256 ^ Z.of_nat 4) with (2 ^ 32) in Hrange.
  unfold GetNTHeaders. rewrite Hv. cbn [bind negb]. rewrite Hload. cbn [bind].
  unfold sext32. split.
  - intros Hlt Hbase Hfit. destruct (Z.ltb_spec lfanew (2 ^ 31)); [|lia].
    rewrite ptr_add_small by lia. done.
  - intros Hge Hbase. destruct (Z.ltb_spec lfanew (2 ^ 31)); [lia|].
    rewrite ptr_add_small by lia. f_equal. lia.
Qed.

(** ** The synthetic processes, run again *)

Section more_runs.
Import Fixture.
Local Open Scope string_scope.

Lemma GetIATEntry_case_insensitive_witness :
  GetModuleHandleA FixtureCI.P "KERNEL32.DLL" = GetModuleHandleA FixtureCI.P "kernel32.dll"
  ∧ GetIATEntry 6 FixtureCI.P this "KERNEL32.DLL" "Sleep"
    = GetIATEntry 6 FixtureCI.P this "kernel32.dll" "Sleep".
Proof.
  split; [by vm_compute|].
  apply (GetIATEntry_case_insensitive FixtureCI.P this
           "KERNEL32.DLL" "kernel32.dll" "Sleep" 6); by vm_compute.
Defined.

Lemma descriptor_skipped_when_name_differs_witness :
  let scan fuel from :=
    descriptor_loop fuel P this (Library_named P "kernel32.dll") "kernel32.dll"
      (K + 0x3000) from in
  cstring_at (mem P) (B + 0x2200) (string_codes "USER32.dll")
  ∧ scan 6%nat (B + 0x2000)
    = scan 5%nat (ptr_add (B + 0x2000) Layout.sizeof_IMAGE_IMPORT_DESCRIPTOR).
Proof.
  intros scan.
  assert (cstring_at (mem P) (B + 0x2200) (string_codes "USER32.dll")) as Hcs.
  { cbn [string_codes cstring_at]. repeat split; by vm_compute. }
  split; [exact Hcs|].
  apply (descriptor_skipped_when_name_differs P this (Library_named P "kernel32.dll")
           "kernel32.dll" (K + 0x3000) (B + 0x2000) 0x2200
           (string_codes "USER32.dll") 5).
  - by vm_compute.
  - done.
  - exact Hcs.
  - cbn [string_codes]. repeat constructor; by vm_compute.
  - by vm_compute.
Defined.



Lemma GetTlsCallbacks_sound_witness :
  GetTlsCallbacks 3 P this = Ret [B + 0x1100; B + 0x1200]
  ∧ callback_array (mem P) (B + 0x3100) [B + 0x1100; B + 0x1200].
Proof.
  assert (GetTlsCallbacks 3 P this = Ret [B + 0x1100; B + 0x1200])
    as Hget by (by vm_compute).
  split; [exact Hget|].
  exact (proj1 (GetTlsCallbacks_sound 3 P this (B + 0x98) 0x3000 (B + 0x3100)
                  [B + 0x1100; B + 0x1200]
                  ltac:(by vm_compute) ltac:(by vm_compute) ltac:(done)
                  ltac:(by vm_compute) Hget)).
Defined.

Lemma GetSectionHeaders_bounded_witness :
  GetSectionHeaders P this = Ret [B + 0x188; B + 0x1B0; B + 0x1D8]
  ∧ Forall (λ s, 0 < s < 2 ^ 64) [B + 0x188; B + 0x1B0; B + 0x1D8].
Proof.
  assert (GetSectionHeaders P this = Ret [B + 0x188; B + 0x1B0; B + 0x1D8])
    as Hget by (by vm_compute).
  split; [exact Hget|].
  exact (proj2 (proj2 (GetSectionHeaders_bounded P this (B + 0x80) 3 _
                         ltac:(by vm_compute) ltac:(by vm_compute) Hget))).
Defined.

Lemma GetChecksum_permutation_witness :
  FixtureFiles.a_bin ≡ₚ FixtureFiles.b_bin
  ∧ GetChecksum FixtureFiles.P FixtureFiles.lib_a
    = GetChecksum FixtureFiles.P FixtureFiles.lib_b.
Proof.
  assert (FixtureFiles.a_bin ≡ₚ FixtureFiles.b_bin) as Hperm.
  { change FixtureFiles.b_bin with (reverse FixtureFiles.a_bin).
    symmetry. apply reverse_Permutation. }
  split; [exact Hperm|].
  apply (GetChecksum_permutation FixtureFiles.P FixtureFiles.P
           FixtureFiles.lib_a FixtureFiles.lib_b "a.bin" "b.bin"
           FixtureFiles.a_bin FixtureFiles.b_bin);
    try exact Hperm; by vm_compute.
Defined.

Lemma GetChecksum_app_witness :
  GetChecksum FixtureFiles.P FixtureFiles.lib_a = Ret 510
  ∧ GetChecksum FixtureFiles.P FixtureFiles.lib_b = Ret 510
  ∧ GetChecksum FixtureFiles.P FixtureFiles.lib_ab = Ret (wrap32 (510 + 510)).
Proof.
  assert (GetChecksum FixtureFiles.P FixtureFiles.lib_a = Ret 510)
    as Ha by (by vm_compute).
  assert (GetChecksum FixtureFiles.P FixtureFiles.lib_b = Ret 510)
    as Hb by (by vm_compute).
  split; [exact Ha|]. split; [exact Hb|].
  apply (GetChecksum_app FixtureFiles.P FixtureFiles.lib_a FixtureFiles.lib_b
           FixtureFiles.lib_ab "a.bin" "b.bin" "ab.bin"
           FixtureFiles.a_bin FixtureFiles.b_bin 510 510);
    try exact Ha; try exact Hb; by vm_compute.
Defined.

Lemma GetChecksum_range_witness :
  ∃ sum, GetChecksum P this = Ret sum ∧ 0 ≤ sum < 2 ^ 32
         ∧ (Z.of_nat (length [x01; x02; x03; xff]) ≤ 16843009 →
            sum = byte_sum [x01; x02; x03; xff]).
Proof.
  apply (GetChecksum_range P this "C:\game\game.exe" [x01; x02; x03; xff]);
    by vm_compute.
Defined.


Lemma GetName_spec_witness :
  (∃ name,
     GetName P this = Ret (Some name)
     ∧ Forall (λ c, is_path_separator c = false) (list_ascii_of_string name)
     ∧ (GetModuleFileNameA P (m_Module this) = name
        ∨ ∃ dir c, is_path_separator c = true
                   ∧ GetModuleFileNameA P (m_Module this)
                     = (dir ++ String c name)%string))
  ∧ GetName P this = Ret (Some "game.exe")
  ∧ GetName P unloaded = Ret (Some "").
Proof.
  split; [exact (proj1 (GetName_spec P this) fixture_valid)|].
  split; [by vm_compute|].
  apply (proj2 (GetName_spec P unloaded)). by vm_compute.
Defined.

Lemma GetIATEntry_module_not_imported_witness :
  GetProc FixtureAlias.P (Library_named FixtureAlias.P "ntdll.dll") "NtClose"
  = K + 0x1000
  ∧ load64 (mem FixtureAlias.P) (B + 0x2310) = Ret (K + 0x1000)
  ∧ GetIATEntry 4 FixtureAlias.P this "ntdll.dll" "NtClose" = Ret 0.
Proof.
  split; [by vm_compute|]. split; [by vm_compute|].
  apply (GetIATEntry_module_not_imported 4 FixtureAlias.P this "ntdll.dll" "NtClose"
           true (B + 0x98) 0x2000 FixtureAlias.ntdll_imports).
  - by vm_compute.
  - by vm_compute.
  - by vm_compute.
  - by vm_compute.
  - cbn [imports_at FixtureAlias.ntdll_imports iv_Name iv_cmp].
    repeat split; intros; by vm_compute.
  - repeat constructor.
  - simpl. lia.
Defined.

Lemma GetNTHeaders_signed_offset_witness :
  GetNTHeaders P this = Ret (B + 0x80)
  ∧ GetNTHeaders FixtureNegative.P this = Ret (B - 16).
Proof.
  split.
  - apply (proj1 (GetNTHeaders_signed_offset P this 0x80
                    ltac:(by vm_compute) ltac:(by vm_compute))); by vm_compute.
  - apply (proj2 (GetNTHeaders_signed_offset FixtureNegative.P this 0xFFFFFFF0
                    ltac:(by vm_compute) ltac:(by vm_compute))); by vm_compute.
Defined.

End more_runs.
